(** * The Express example API of template2 (examples/nodejs/src/index.ts)

    A shallow embedding of the request pipeline of the Node.js example:
    body parsing, the rate limiting middleware, the bearer token
    middleware and the route handlers over the in-memory [users] array.

    Conventions.
    - A JavaScript [number] that serves as an id is [NaN], an infinity or
      an integer-valued double; additions and [parseInt] round to the
      nearest double, ties to even, as IEEE 754 does.
    - A string is a sequence of code units below 256.
    - Time is [Date.now()], a number of milliseconds, as [Z].
    - The packages the file imports (zod's e-mail pattern, bcryptjs,
      jsonwebtoken's encoding) are the fields of the class [Runtime].
    - helmet, compression and morgan neither answer a request nor touch
      the state of the handlers; they are left out. Of cors, the answer to
      OPTIONS requests is kept. *)

From stdpp Require Import base option list strings gmap.
From Stdlib Require Import Ascii String ZArith QArith Lia.

Set Warnings "-register-all".
Set Default Proof Using "Type".

Local Open Scope string_scope.
Local Open Scope list_scope.
Local Open Scope Z_scope.

(** ** JavaScript numbers used as ids *)

Inductive number :=
  | NaN
  | NegInf
  | PosInf
  | Int (z : Z).

Global Instance number_eq_dec : EqDecision number.
Proof. solve_decision. Defined.

(** Nearest double of an integer, ties to even; beyond the largest double the
    result is an infinity. Integers of magnitude below [2^53] are exact. *)
Definition round_double (z : Z) : number :=
  let a := Z.abs z in
  let e := Z.log2 a in
  if e <=? 52 then Int z
  else
    let s := e - 52 in
    let q := Z.shiftr a s in
    let r := a mod 2 ^ s in
    let half := 2 ^ (s - 1) in
    let q' := if (half <? r) || ((r =? half) && Z.odd q) then q + 1 else q in
    let m := Z.shiftl q' s in
    if 2 ^ 1024 <=? m then (if z <? 0 then NegInf else PosInf)
    else Int (Z.sgn z * m).

(** [a + b] *)
Definition num_add (a b : number) : number :=
  match a, b with
  | NaN, _ | _, NaN => NaN
  | PosInf, NegInf | NegInf, PosInf => NaN
  | PosInf, _ | _, PosInf => PosInf
  | NegInf, _ | _, NegInf => NegInf
  | Int x, Int y => round_double (x + y)
  end.

(** [a === b] on numbers: [NaN] equals nothing, itself included. *)
Definition strict_eq (a b : number) : bool :=
  match a, b with
  | Int x, Int y => x =? y
  | NegInf, NegInf => true
  | PosInf, PosInf => true
  | _, _ => false
  end.

(** One step of [Math.max]: [NaN] wins, then the larger value. *)
Definition max2 (a b : number) : number :=
  match a, b with
  | NaN, _ | _, NaN => NaN
  | PosInf, _ | _, PosInf => PosInf
  | NegInf, x | x, NegInf => x
  | Int x, Int y => Int (Z.max x y)
  end.

(** [Math.max(...l)]: starts from [-Infinity], which is the result when there
    is no argument. *)
Definition Math_max (l : list number) : number := fold_left max2 l NegInf.

(** The order of the numbers, [NaN] being comparable with nothing. *)
Definition num_lt (a b : number) : Prop :=
  match a, b with
  | NaN, _ | _, NaN => False
  | _, NegInf => False
  | NegInf, _ => True
  | PosInf, _ => False
  | Int _, PosInf => True
  | Int x, Int y => x < y
  end.

Definition num_le (a b : number) : Prop :=
  match a, b with
  | NaN, _ | _, NaN => False
  | NegInf, _ => True
  | _, PosInf => True
  | _, NegInf => False
  | PosInf, _ => False
  | Int x, Int y => x <= y
  end.

Definition is_positive_integer (n : number) : Prop :=
  exists z, n = Int z /\ 0 < z.

(** The largest integer below which every integer is a double and [+ 1] is
    exact ([Number.MAX_SAFE_INTEGER + 1]). *)
Definition two53 : Z := 2 ^ 53.

(** ** Strings: [parseInt] and [split] *)

(** White space that [parseInt] skips: tab, line feed, vertical tab, form
    feed, carriage return, space and no-break space. *)
Definition is_white_space (c : ascii) : bool :=
  let n := Z.of_nat (nat_of_ascii c) in
  ((9 <=? n) && (n <=? 13)) || (n =? 32) || (n =? 160).

Fixpoint trim_start (s : string) : string :=
  match s with
  | String c s' => if is_white_space c then trim_start s' else s
  | EmptyString => EmptyString
  end.

(** Value of a character as a digit in the given radix, if it is one. *)
Definition digit_value (radix : Z) (c : ascii) : option Z :=
  let n := Z.of_nat (nat_of_ascii c) in
  let v :=
    if (48 <=? n) && (n <=? 57) then Some (n - 48)
    else if (97 <=? n) && (n <=? 122) then Some (n - 87)
    else if (65 <=? n) && (n <=? 90) then Some (n - 55)
    else None in
  match v with
  | Some d => if d <? radix then Some d else None
  | None => None
  end.

(** The longest prefix of digits, read in the radix; [None] when the string
    does not start with a digit. *)
Fixpoint read_digits (radix : Z) (acc : option Z) (s : string) : option Z :=
  match s with
  | String c s' =>
      match digit_value radix c with
      | Some d => read_digits radix (Some (radix * default 0 acc + d)) s'
      | None => acc
      end
  | EmptyString => acc
  end.

Definition strip_sign (s : string) : Z * string :=
  match s with
  | String "-"%char s' => (-1, s')
  | String "+"%char s' => (1, s')
  | _ => (1, s)
  end.

Definition strip_hex_prefix (s : string) : Z * string :=
  match s with
  | String "0"%char (String "x"%char s') => (16, s')
  | String "0"%char (String "X"%char s') => (16, s')
  | _ => (10, s)
  end.

(** [parseInt(s)], without a radix argument. *)
Definition parseInt (s : string) : number :=
  let '(sign, s1) := strip_sign (trim_start s) in
  let '(radix, s2) := strip_hex_prefix s1 in
  match read_digits radix None s2 with
  | None => NaN
  | Some v => round_double (sign * v)
  end.

(** [s.split(c)] for a separator of one character. *)
Fixpoint split (c : ascii) (s : string) : list string :=
  match s with
  | EmptyString => [EmptyString]
  | String a s' =>
      if Ascii.eqb a c then EmptyString :: split c s'
      else match split c s' with
           | h :: t => String a h :: t
           | [] => [String a EmptyString]
           end
  end.

(** [l.findIndex(p)]: the first index whose element satisfies [p], or [-1]. *)
Fixpoint findIndex {A : Type} (p : A -> bool) (l : list A) : Z :=
  match l with
  | [] => -1
  | x :: l' =>
      if p x then 0
      else let i := findIndex p l' in if i =? -1 then -1 else i + 1
  end.

(** [l.find(p)]: the first element that satisfies [p], or [undefined]. *)
Fixpoint find {A : Type} (p : A -> bool) (l : list A) : option A :=
  match l with
  | [] => None
  | x :: l' => if p x then Some x else find p l'
  end.

(** ** Request bodies and the zod schemas *)

(** What [express.json()] leaves in [req.body]; a number literal beyond the
    range of the doubles is read as an infinity. *)
Inductive json :=
  | JNull
  | JBool (b : bool)
  | JNumber (q : Q)
  | JInfinity (negative : bool)
  | JString (s : string)
  | JArray (l : list json)
  | JObject (o : gmap string json).

Inductive IssueCode := invalid_type | too_small | too_big | invalid_string.

Module ZodIssue.
Record t := { code : IssueCode; path : list string }.
End ZodIssue.
Abbreviation ZodIssue := ZodIssue.t.

(** An issue of the given code at a field. *)
Definition issue (c : IssueCode) (p : list string) : ZodIssue :=
  {| ZodIssue.code := c; ZodIssue.path := p |}.

(** [error.errors] of a [ZodError]. *)
Record ZodError := { errors : list ZodIssue }.

(** A call that returns or throws a [ZodError]. *)
Inductive thrown (A : Type) :=
  | Returns (a : A)
  | Throws (e : ZodError).
Arguments Returns {A} a.
Arguments Throws {A} e.

Module UserCreate.
Record t := { name : string; email : string; age : option Q }.
End UserCreate.
Abbreviation UserCreate := UserCreate.t.

Module User.
Record t := { id : number; name : string; email : string; age : option Q }.
End User.
Abbreviation User := User.t.

Module AuthRequest.
Record t := { username : string; password : string }.
End AuthRequest.
Abbreviation AuthRequest := AuthRequest.t.

(** The object that [jwt.sign] encodes and [jwt.verify] gives back: the payload
    of the login handler with the issue and expiry times, in seconds. *)
Module JwtPayload.
Record t := { id : number; username : string; iat : Z; exp : Z }.
End JwtPayload.
Abbreviation JwtPayload := JwtPayload.t.

Module AuthUser.
Record t := { id : number; username : string; password : string }.
End AuthUser.
Abbreviation AuthUser := AuthUser.t.

(** What the process takes from outside of index.ts: an environment
    variable and the functions of the packages whose results depend on
    patterns and cryptography. [jwt_decode secret token] is the payload of a
    well-formed token whose signature matches the secret. *)
Class Runtime := {
  env_JWT_SECRET : option string;
  email_pattern : string -> bool;
  bcrypt_compare : string -> string -> bool;
  jwt_encode : string -> JwtPayload -> string;
  jwt_decode : string -> string -> option JwtPayload
}.

(** [z.string().min(lo).max(hi)] *)
Definition parse_string (lo hi : nat) (p : string) (v : option json)
  : list ZodIssue + string :=
  match v with
  | Some (JString s) =>
      let n := String.length s in
      let issues :=
        (if (n <? lo)%nat then [issue too_small [p]] else []) ++
        (if (hi <? n)%nat then [issue too_big [p]] else []) in
      match issues with [] => inr s | _ => inl issues end
  | _ => inl [issue invalid_type [p]]
  end.

(** [z.string().email()] *)
Definition parse_email `{Runtime} (p : string) (v : option json)
  : list ZodIssue + string :=
  match v with
  | Some (JString s) =>
      if email_pattern s then inr s
      else inl [issue invalid_string [p]]
  | _ => inl [issue invalid_type [p]]
  end.

(** [z.number().min(1).max(150).optional()] *)
Definition parse_age (p : string) (v : option json)
  : list ZodIssue + option Q :=
  match v with
  | None => inr None
  | Some (JNumber q) =>
      if negb (Qle_bool 1 q) then inl [issue too_small [p]]
      else if negb (Qle_bool q 150) then inl [issue too_big [p]]
      else inr (Some q)
  | Some (JInfinity negative) =>
      inl [issue (if negative then too_small else too_big) [p]]
  | Some _ => inl [issue invalid_type [p]]
  end.

Definition issues_of {A : Type} (r : list ZodIssue + A) : list ZodIssue :=
  match r with inl l => l | inr _ => [] end.

(** [UserCreateSchema.parse(body)]; keys outside the schema are dropped. *)
Definition UserCreateSchema_parse `{Runtime} (body : json) : thrown UserCreate :=
  match body with
  | JObject o =>
      let n := parse_string 1 100 "name" (o !! "name") in
      let e := parse_email "email" (o !! "email") in
      let a := parse_age "age" (o !! "age") in
      match n, e, a with
      | inr n', inr e', inr a' =>
          Returns {| UserCreate.name := n'; UserCreate.email := e';
                     UserCreate.age := a' |}
      | _, _, _ =>
          Throws {| errors := issues_of n ++ issues_of e ++ issues_of a |}
      end
  | _ => Throws {| errors := [issue invalid_type []] |}
  end.

(** [AuthSchema.parse(body)] *)
Definition AuthSchema_parse (body : json) : thrown AuthRequest :=
  match body with
  | JObject o =>
      let u := parse_string 3 50 "username" (o !! "username") in
      let p := parse_string 6 100 "password" (o !! "password") in
      match u, p with
      | inr u', inr p' =>
          Returns {| AuthRequest.username := u'; AuthRequest.password := p' |}
      | _, _ => Throws {| errors := issues_of u ++ issues_of p |}
      end
  | _ => Throws {| errors := [issue invalid_type []] |}
  end.

(** ** Rate limiting *)

(** A record of the limiter's memory storage. *)
Record LimiterRecord := { value : Z; expiresAt : Z }.

(** [points: 100], [duration: 60] (seconds), [keyPrefix: 'middleware'] *)
Definition points : Z := 100.
Definition duration : Z := 60.
Definition keyPrefix : string := "middleware".

Definition getKey (key : string) : string := keyPrefix +:+ ":" +:+ key.

(** Modelled from the spec: [RateLimiterMemory] of the rate-limiter-flexible
    package, of which index.ts has only the construction and the call of
    [consume]. A counter per client key with a fixed capacity and a fixed
    window, created on the first request of the key and dropped once the
    window has passed; each request adds one unit to the counter of the live
    window, or opens a window of [duration] seconds with one unit consumed. *)
Definition incrby (storage : gmap string LimiterRecord) (key : string)
    (now : Z) : LimiterRecord :=
  let fresh := {| value := 1; expiresAt := now + duration * 1000 |} in
  match storage !! key with
  | Some r =>
      if 0 <? expiresAt r - now
      then {| value := value r + 1; expiresAt := expiresAt r |}
      else fresh
  | None => fresh
  end.

(** Modelled from the spec: [rateLimiter.consume(key)] of the same package;
    [true] when the promise resolves, [false] when it rejects because more
    than [points] units were consumed in the window. *)
Definition consume (storage : gmap string LimiterRecord) (key : string)
    (now : Z) : bool * gmap string LimiterRecord :=
  let r := incrby storage (getKey key) now in
  (negb (points <? value r), <[getKey key := r]> storage).


(** ** Tokens *)

Definition JWT_SECRET `{Runtime} : string :=
  match env_JWT_SECRET with
  | Some s => if String.eqb s "" then "your-secret-key" else s
  | None => "your-secret-key"
  end.

(** Seconds of [expiresIn: '24h']. *)
Definition expiresIn : Z := 24 * 60 * 60.

(** Modelled from the spec: [jwt.sign] of the jsonwebtoken package, which is
    not part of the sources. The call
    [jwt.sign({id, username}, secret, {expiresIn: '24h'})] at time [now] makes
    a signed token that encodes the subject id, the username and the expiry,
    24 hours after the second of issue. *)
Definition jwt_sign `{Runtime} (id : number) (username : string)
    (secret : string) (now : Z) : string :=
  let iat := now / 1000 in
  jwt_encode secret
    {| JwtPayload.id := id; JwtPayload.username := username;
       JwtPayload.iat := iat; JwtPayload.exp := iat + expiresIn |}.

(** Modelled from the spec: [jwt.verify] of the jsonwebtoken package, which
    is not part of the sources; it verifies the signature and the expiry of
    the token. For the call [jwt.verify(token, secret, callback)] at time
    [now], [None] stands for the callback called with an error (malformed
    token, wrong signature or [exp] reached) and [Some user] for the callback
    called with the payload. *)
Definition jwt_verify `{Runtime} (token secret : string) (now : Z)
  : option JwtPayload :=
  match jwt_decode secret token with
  | Some user => if JwtPayload.exp user <=? now / 1000 then None else Some user
  | None => None
  end.

(** ** Requests, responses and the log *)

Inductive Method := GET | POST | PUT | DELETE | HEAD | OPTIONS | OtherMethod.

Global Instance Method_eq_dec : EqDecision Method.
Proof. solve_decision. Defined.

(** [path] holds the segments of the URL path, none of them empty: the
    slash that may end a path is not a segment, since the router ignores it,
    and the segment in the place of [:id] is the parameter as the handler
    reads it. [body] is [None] when the body parser fails (malformed or
    oversized payload). *)
Record Request := {
  ip : string;
  method : Method;
  path : list string;
  authorization : option string;
  body : option json
}.

Inductive Body :=
  | BodyWelcome
  | BodyHealth
  | BodyError (error : string)
  | BodyValidation (details : list ZodIssue)
  | BodyLogin (token : string) (id : number) (username : string)
  | BodyUsers (l : list User)
  | BodyUser (u : User)
  | BodyProtected (user : JwtPayload)
  | BodyEmpty.

Record Response := { status : Z; payload : Body }.

(** The calls of [logger] made by the handlers. *)
Inductive LogEntry :=
  | info_root
  | info_health
  | info_logged_in (username : string)
  | info_fetch_all
  | warn_not_found (id : number)
  | info_fetch (id : number)
  | info_created (name : string)
  | warn_update_not_found (id : number)
  | info_updated (id : number)
  | warn_delete_not_found (id : number)
  | info_deleted (id : number)
  | info_protected (username : string)
  | error_unhandled
  | warn_route_not_found (m : Method) (p : list string).

(** What a handler does: its response, the array [users] when it returns
    and its log entries. *)
Record Outcome := {
  response : Response;
  users_after : list User;
  logged : list LogEntry
}.

Definition respond (st : Z) (b : Body) (us : list User) (l : list LogEntry)
  : Outcome :=
  {| response := {| status := st; payload := b |};
     users_after := us; logged := l |}.

(** ** The stores and the handlers *)

Definition users0 : list User :=
  [ {| User.id := Int 1; User.name := "Alice Johnson";
       User.email := "alice@example.com"; User.age := Some 30%Q |};
    {| User.id := Int 2; User.name := "Bob Smith";
       User.email := "bob@example.com"; User.age := Some 25%Q |} ].

Definition authUsers : list AuthUser :=
  [ {| AuthUser.id := Int 1; AuthUser.username := "admin";
       AuthUser.password :=
         "$2a$10$8K1p/a0dURXAU7aHSzU.9OA2w2O3BqASDNr6vW5Ag6dHklhGIh6Ve" |} ].

(** The token of [authenticateToken]: the second field of the header. *)
Definition header_token (authHeader : option string) : option string :=
  match authHeader with
  | Some h => if String.eqb h "" then Some "" else split " "%char h !! 1%nat
  | None => None
  end.

(** [!token] *)
Definition falsy (token : option string) : bool :=
  match token with
  | Some t => String.eqb t ""
  | None => true
  end.

(** [authenticateToken]: a response that ends the request, or the user that
    it stores in [req.user] before it calls [next()]. *)
Definition authenticateToken `{Runtime} (now : Z) (authHeader : option string)
  : Response + JwtPayload :=
  let token := header_token authHeader in
  if falsy token
  then inl {| status := 401; payload := BodyError "Access token required" |}
  else
    match jwt_verify (default "" token) JWT_SECRET now with
    | None => inl {| status := 403; payload := BodyError "Invalid token" |}
    | Some user => inr user
    end.

Definition validation_failed (e : ZodError) (users : list User) : Outcome :=
  respond 400 (BodyValidation (errors e)) users [].

Definition post_auth_login `{Runtime} (now : Z) (body : json)
    (users : list User) : Outcome :=
  match AuthSchema_parse body with
  | Returns a =>
      match find (fun u => String.eqb (AuthUser.username u)
                                      (AuthRequest.username a)) authUsers with
      | Some user =>
          if bcrypt_compare (AuthRequest.password a) (AuthUser.password user)
          then
            let token := jwt_sign (AuthUser.id user) (AuthUser.username user)
                                  JWT_SECRET now in
            respond 200
              (BodyLogin token (AuthUser.id user) (AuthUser.username user))
              users [info_logged_in (AuthRequest.username a)]
          else respond 401 (BodyError "Invalid credentials") users []
      | None => respond 401 (BodyError "Invalid credentials") users []
      end
  | Throws e => validation_failed e users
  end.

Definition get_users (users : list User) : Outcome :=
  respond 200 (BodyUsers users) users [info_fetch_all].

Definition get_users_id (param : string) (users : list User) : Outcome :=
  let id := parseInt param in
  match find (fun u => strict_eq (User.id u) id) users with
  | None => respond 404 (BodyError "User not found") users [warn_not_found id]
  | Some user => respond 200 (BodyUser user) users [info_fetch id]
  end.

(** The argument list of [Math.max(...)] is taken to fit the limit of the
    engine, so that the call returns. *)
Definition post_users `{Runtime} (body : json) (users : list User) : Outcome :=
  match UserCreateSchema_parse body with
  | Returns userData =>
      let newId := num_add (Math_max (map User.id users)) (Int 1) in
      let newUser :=
        {| User.id := newId; User.name := UserCreate.name userData;
           User.email := UserCreate.email userData;
           User.age := UserCreate.age userData |} in
      respond 201 (BodyUser newUser) (users ++ [newUser])
              [info_created (User.name newUser)]
  | Throws e => validation_failed e users
  end.

Definition put_users_id `{Runtime} (param : string) (body : json)
    (users : list User) : Outcome :=
  let id := parseInt param in
  match UserCreateSchema_parse body with
  | Returns userData =>
      let userIndex := findIndex (fun u => strict_eq (User.id u) id) users in
      if userIndex =? -1
      then respond 404 (BodyError "User not found") users
                   [warn_update_not_found id]
      else
        let updatedUser :=
          {| User.id := id; User.name := UserCreate.name userData;
             User.email := UserCreate.email userData;
             User.age := UserCreate.age userData |} in
        respond 200 (BodyUser updatedUser)
                (<[Z.to_nat userIndex := updatedUser]> users)
                [info_updated id]
  | Throws e => validation_failed e users
  end.

Definition delete_users_id (param : string) (users : list User) : Outcome :=
  let id := parseInt param in
  let userIndex := findIndex (fun u => strict_eq (User.id u) id) users in
  if userIndex =? -1
  then respond 404 (BodyError "User not found") users
               [warn_delete_not_found id]
  else respond 204 BodyEmpty (delete (Z.to_nat userIndex) users)
               [info_deleted id].

Definition get_protected `{Runtime} (now : Z) (authHeader : option string)
    (users : list User) : Outcome :=
  match authenticateToken now authHeader with
  | inl res => {| response := res; users_after := users; logged := [] |}
  | inr user =>
      respond 200 (BodyProtected user) users
              [info_protected (JwtPayload.username user)]
  end.

(** The registered routes; [no_route] is the ['*'] handler at the end. *)
Inductive Route :=
  | root
  | health
  | auth_login
  | users_all
  | users_get (param : string)
  | users_post
  | users_put (param : string)
  | users_delete (param : string)
  | protected
  | no_route.

Definition to_lower (c : ascii) : ascii :=
  let n := nat_of_ascii c in
  if ((65 <=? n) && (n <=? 90))%nat then ascii_of_nat (n + 32) else c.

Fixpoint lower_case (s : string) : string :=
  match s with
  | EmptyString => EmptyString
  | String c s' => String (to_lower c) (lower_case s')
  end.

(** The router compares the fixed segments of a route without regard to the
    case of the letters. *)
Definition segment_is (literal segment : string) : bool :=
  String.eqb (lower_case segment) literal.

(** The route that a method and the segments of a path select; a HEAD
    request runs the handler of the GET route. *)
Definition route_of (m : Method) (p : list string) : Route :=
  match (if decide (m = HEAD) then GET else m), p with
  | GET, [] => root
  | GET, [a] =>
      if segment_is "health" a then health
      else if segment_is "users" a then users_all
      else if segment_is "protected" a then protected
      else no_route
  | POST, [a; b] =>
      if segment_is "auth" a && segment_is "login" b then auth_login
      else no_route
  | GET, [a; param] => if segment_is "users" a then users_get param else no_route
  | POST, [a] => if segment_is "users" a then users_post else no_route
  | PUT, [a; param] => if segment_is "users" a then users_put param else no_route
  | DELETE, [a; param] =>
      if segment_is "users" a then users_delete param else no_route
  | _, _ => no_route
  end.

Definition dispatch `{Runtime} (now : Z) (req : Request) (body : json)
    (users : list User) : Outcome :=
  match route_of (method req) (path req) with
  | root => respond 200 BodyWelcome users [info_root]
  | health => respond 200 BodyHealth users [info_health]
  | auth_login => post_auth_login now body users
  | users_all => get_users users
  | users_get param => get_users_id param users
  | users_post => post_users body users
  | users_put param => put_users_id param body users
  | users_delete param => delete_users_id param users
  | protected => get_protected now (authorization req) users
  | no_route =>
      respond 404 (BodyError "Route not found") users
              [warn_route_not_found (method req) (path req)]
  end.

(** ** The pipeline *)

Record State := {
  users : list User;
  storage : gmap string LimiterRecord
}.

Definition init : State := {| users := users0; storage := ∅ |}.

Record Result := {
  res : Response;
  state : State;
  log : list LogEntry
}.

(** What [res.json] sends: for a HEAD request the status without the body. *)
Definition send (m : Method) (r : Response) : Response :=
  if decide (m = HEAD) then {| status := status r; payload := BodyEmpty |}
  else r.

(** One request at time [now]: [cors()], which ends an OPTIONS request with
    204 before anything else runs; the body parser, whose failure goes to the
    error handling middleware; [rateLimitMiddleware]; then the routes. *)
Definition handle `{Runtime} (now : Z) (req : Request) (st : State) : Result :=
  if decide (method req = OPTIONS)
  then {| res := {| status := 204; payload := BodyEmpty |};
          state := st; log := [] |}
  else
    match body req with
    | None =>
        {| res := send (method req)
                    {| status := 500;
                       payload := BodyError "Internal server error" |};
           state := st; log := [error_unhandled] |}
    | Some b =>
        let '(resolved, storage') := consume (storage st) (ip req) now in
        if resolved
        then
          let o := dispatch now req b (users st) in
          {| res := send (method req) (response o);
             state := {| users := users_after o; storage := storage' |};
             log := logged o |}
        else
          {| res := send (method req)
                      {| status := 429;
                         payload := BodyError "Rate limit exceeded" |};
             state := {| users := users st; storage := storage' |};
             log := [] |}
    end.

(** Requests served one after the other, each at its time. *)
Fixpoint run `{Runtime} (reqs : list (Z * Request)) (st : State)
  : list Response * State :=
  match reqs with
  | [] => ([], st)
  | (now, req) :: reqs' =>
      let r := handle now req st in
      let '(rs, st') := run reqs' (state r) in
      (res r :: rs, st')
  end.

(** ** Notions used by the statements *)

(** The rate limiter lets the request through. *)
Definition admitted (now : Z) (req : Request) (st : State) : Prop :=
  (consume (storage st) (ip req) now).1 = true.

(** [x] occurs in [l] and nothing in [l] is larger. *)
Definition greatest (x : number) (l : list number) : Prop :=
  x ∈ l /\ forall y, y ∈ l -> num_le y x.


Definition ids (users : list User) : list number := map User.id users.
Definition emails (users : list User) : list string := map User.email users.

(** The ids of the records that the [201] responses of a run carry. *)
Definition assigned_ids (rs : list Response) : list number :=
  omap (fun r => match payload r with
                 | BodyUser u => if status r =? 201 then Some (User.id u) else None
                 | _ => None
                 end) rs.

(** The address of a POST or PUT body that passes the schema is held by no
    record, other than the record that the request replaces when it is a
    PUT /users/:id. *)
Definition email_free `{Runtime} (req : Request) (users : list User) : Prop :=
  forall b d,
    body req = Some b -> UserCreateSchema_parse b = Returns d ->
    match method req with
    | POST => UserCreate.email d ∉ emails users
    | PUT =>
        forall (j : nat) (u : User),
          users !! j = Some u -> User.email u = UserCreate.email d ->
          exists param,
            route_of PUT (path req) = users_put param /\
            Z.of_nat j =
              findIndex (fun u => strict_eq (User.id u) (parseInt param)) users
    | _ => True
    end.

(** [email_free] holds for each request of a run, in the state in which the
    request is served. *)
Fixpoint all_email_free `{Runtime} (reqs : list (Z * Request)) (st : State)
  : Prop :=
  match reqs with
  | [] => True
  | (now, req) :: reqs' =>
      email_free req (users st) /\ all_email_free reqs' (state (handle now req st))
  end.

Definition alice_again : json :=
  JObject (list_to_map [("name", JString "Alice Two");
                        ("email", JString "alice@example.com")]).


(** The header is "Bearer " followed by a token. *)
Definition bearer_token_present (authHeader : option string) : Prop :=
  exists token, token <> "" /\ authHeader = Some ("Bearer " +:+ token).

(** The string holds a space. *)
Fixpoint has_space (s : string) : bool :=
  match s with
  | EmptyString => false
  | String a s' => Ascii.eqb a " "%char || has_space s'
  end.

(** Each id of the list is below all the ids that come after it. *)
Definition strictly_increasing (l : list number) : Prop :=
  forall (i j : nat) (a b : number),
    (i < j)%nat -> l !! i = Some a -> l !! j = Some b -> num_lt a b.

(** ** A sample runtime and sample requests *)

Definition contains_at (s : string) : bool :=
  existsb (fun c => Ascii.eqb c "@"%char) (list_ascii_of_string s).

Definition sample_payload : JwtPayload :=
  {| JwtPayload.id := Int 1; JwtPayload.username := "admin";
     JwtPayload.iat := 1700000000; JwtPayload.exp := 1700086400 |}.

Definition sample_token : string := "eyJhbGciOiJIUzI1NiJ9.eyJpZCI6MX0.c2ln".

(** A runtime with a toy pattern for addresses, one accepted password and one
    token, which is the token of [sample_payload] under the default secret. *)
Definition sample : Runtime := {|
  env_JWT_SECRET := None;
  email_pattern := contains_at;
  bcrypt_compare := fun password _ => String.eqb password "admin123";
  jwt_encode := fun _ _ => sample_token;
  jwt_decode := fun secret token =>
    if String.eqb secret "your-secret-key" && String.eqb token sample_token
    then Some sample_payload else None
|}.

Definition object (l : list (string * json)) : json := JObject (list_to_map l).

Definition request (m : Method) (p : list string) (b : json) : Request :=
  {| ip := "203.0.113.7"; method := m; path := p; authorization := None;
     body := Some b |}.

Definition carol : json :=
  object [("name", JString "Carol"); ("email", JString "carol@example.com")].

Definition login_request : Request :=
  request POST ["auth"; "login"]
          (object [("username", JString "admin"); ("password", JString "admin123")]).

Definition protected_request : Request :=
  {| ip := "203.0.113.7"; method := GET; path := ["protected"];
     authorization := Some ("Bearer " +:+ sample_token);
     body := Some (object []) |}.


Definition garbage_request : Request :=
  {| ip := "203.0.113.7"; method := GET; path := ["protected"];
     authorization := Some "Bearer garbage";
     body := Some (object []) |}.

Definition basic_request : Request :=
  {| ip := "203.0.113.7"; method := GET; path := ["protected"];
     authorization := Some ("Basic " +:+ sample_token);
     body := Some (object []) |}.

(** A path parameter of 400 digits after a minus sign. *)
Definition minus_nines : string :=
  String "-"%char (string_of_list_ascii (repeat "9"%char 400)).

(** ** Notions used by the further statements *)

(** The bounds of [UserCreateSchema] on the fields of a record. *)
Definition valid_fields `{Runtime} (name email : string) (age : option Q)
  : Prop :=
  (1 <= String.length name <= 100)%nat /\
  email_pattern email = true /\
  match age with
  | Some q => Qle_bool 1 q = true /\ Qle_bool q 150 = true
  | None => True
  end.

Definition valid_record `{Runtime} (u : User) : Prop :=
  valid_fields (User.name u) (User.email u) (User.age u).

(** All the ids are [-Infinity], or they are distinct integers from 1 to [n]. *)
Definition ids_ok (n : Z) (users : list User) : Prop :=
  (forall x, x ∈ ids users -> x = NegInf) \/
  (NoDup (ids users) /\
   forall x, x ∈ ids users -> exists z, x = Int z /\ 1 <= z <= n).

Definition is_decimal_digit (c : ascii) : bool :=
  let n := Z.of_nat (nat_of_ascii c) in (48 <=? n) && (n <=? 57).

Fixpoint all_digits (s : string) : bool :=
  match s with
  | EmptyString => true
  | String c s' => is_decimal_digit c && all_digits s'
  end.

(** The string does not start with the [x] of a hexadecimal prefix. *)
Definition no_hex_mark (s : string) : bool :=
  match s with
  | EmptyString => true
  | String c _ => negb (Ascii.eqb c "x"%char) && negb (Ascii.eqb c "X"%char)
  end.

(** The string is empty or starts with a character that is neither a decimal
    digit nor the [x] of a hexadecimal prefix. *)
Definition ends_number (s : string) : bool :=
  match s with
  | EmptyString => true
  | String c _ =>
      negb (is_decimal_digit c) && negb (Ascii.eqb c "x"%char) &&
      negb (Ascii.eqb c "X"%char)
  end.

(** Closed decidable goals, by evaluation of their decision procedure. *)
Ltac by_decide :=
  match goal with
  | |- ?P => apply (@bool_decide_unpack P _); vm_compute; exact I
  end.

(** ** Checks of the definitions on small inputs *)

Example parseInt_12 : parseInt " 12px" = Int 12.
Proof. reflexivity. Qed.
Example parseInt_hex : parseInt "-0x1F" = Int (-31).
Proof. reflexivity. Qed.
Example parseInt_abc : parseInt "abc" = NaN.
Proof. reflexivity. Qed.
Example parseInt_big : parseInt "9007199254740993" = Int 9007199254740992.
Proof. vm_compute. reflexivity. Qed.
Example parseInt_tie_up : parseInt "9007199254740995" = Int 9007199254740996.
Proof. vm_compute. reflexivity. Qed.
Example parseInt_0x : parseInt "0x" = NaN.
Proof. reflexivity. Qed.
Example round_double_largest :
  round_double (2 ^ 1024 - 2 ^ 971) = Int (2 ^ 1024 - 2 ^ 971) /\
  round_double (2 ^ 1024 - 2 ^ 970) = PosInf.
Proof. split; vm_compute; reflexivity. Qed.
Example split_bearer : split " "%char "Bearer a.b.c" = ["Bearer"; "a.b.c"].
Proof. reflexivity. Qed.
Example max_empty : num_add (Math_max []) (Int 1) = NegInf.
Proof. reflexivity. Qed.

Example parseInt_minus_nines : parseInt minus_nines = NegInf.
Proof. vm_compute. reflexivity. Qed.

(** ** Numbers *)

Lemma round_double_exact z : - two53 <= z <= two53 -> round_double z = Int z.
Proof.
  unfold two53. intros Hz. unfold round_double.
  destruct (Z.leb_spec (Z.log2 (Z.abs z)) 52) as [Hle|Hgt]; [done|].
  assert (Ha : Z.abs z = 2 ^ 53).
  { destruct (Z.eq_dec (Z.abs z) 0) as [E|E]; [rewrite E in Hgt; simpl in Hgt; lia|].
    assert (~ Z.abs z < 2 ^ 53); [|lia].
    intros Hlt. apply Z.log2_lt_pow2 in Hlt; lia. }
  destruct (Z.abs_eq_or_opp z) as [E|E]; rewrite E in Ha.
  - subst z. vm_compute. reflexivity.
  - assert (z = - 2 ^ 53) as -> by lia. vm_compute. reflexivity.
Qed.

Lemma seconds_lt t e : t < e * 1000 <-> t / 1000 < e.
Proof.
  split; intros Ht.
  - apply Z.div_lt_upper_bound; lia.
  - destruct (Z.lt_ge_cases t (e * 1000)) as [?|Hge]; [done|].
    assert (e <= t / 1000) by (apply Z.div_le_lower_bound; lia). lia.
Qed.

Lemma strict_eq_NaN a : strict_eq a NaN = false.
Proof. by destruct a. Qed.

Lemma strict_eq_true a b : strict_eq a b = true -> a = b.
Proof. destruct a, b; simpl; try done. intros ?%Z.eqb_eq. by subst. Qed.

Lemma strict_eq_refl a : a <> NaN -> strict_eq a a = true.
Proof. destruct a; simpl; try done. intros _. apply Z.eqb_refl. Qed.

Lemma max2_le a x m :
  num_le (max2 a x) (Int m) -> num_le a (Int m) /\ num_le x (Int m).
Proof. destruct a, x; simpl; try done; lia. Qed.

Lemma fold_max2_le m l : forall a,
  fold_left max2 l a = Int m ->
  num_le a (Int m) /\ Forall (fun x => num_le x (Int m)) l.
Proof.
  induction l as [|x l IH]; simpl; intros a Ha.
  - rewrite Ha. simpl. split; [lia|constructor].
  - destruct (IH _ Ha) as [Hax Hl].
    apply max2_le in Hax as [? ?]. split; [done|]. by constructor.
Qed.

Lemma Math_max_upper m l x : Math_max l = Int m -> x ∈ l -> num_le x (Int m).
Proof.
  intros Hm Hx. apply fold_max2_le in Hm as [_ Hm].
  rewrite Forall_forall in Hm. by apply Hm.
Qed.

Lemma fold_max2_greatest m l : forall a,
  num_le a (Int m) -> (forall y, y ∈ l -> num_le y (Int m)) ->
  a = Int m \/ Int m ∈ l ->
  fold_left max2 l a = Int m.
Proof.
  induction l as [|x l IH]; simpl; intros a Ha Hl Hin.
  - destruct Hin as [?|Hin]; [done|]. by apply elem_of_nil in Hin.
  - assert (Hx : num_le x (Int m)) by (apply Hl; left).
    apply IH.
    + destruct a, x; simpl in *; try done; lia.
    + intros y Hy. apply Hl. by right.
    + destruct Hin as [->|Hin].
      * left. destruct x; simpl in *; try done. f_equal. lia.
      * apply elem_of_cons in Hin as [<-|Hin]; [|by right].
        left. destruct a; simpl in *; try done. f_equal. lia.
Qed.

Lemma Math_max_greatest m l : greatest (Int m) l -> Math_max l = Int m.
Proof.
  intros [Hin Hle]. apply fold_max2_greatest; [done|done|by right].
Qed.

(** ** Arrays *)

Lemma findIndex_ge {A} (p : A -> bool) l : -1 <= findIndex p l.
Proof.
  induction l as [|x l IH]; simpl; [lia|].
  destruct (p x); [lia|]. destruct (Z.eqb_spec (findIndex p l) (-1)); lia.
Qed.

Lemma findIndex_none {A} (p : A -> bool) l :
  findIndex p l = -1 <-> Forall (fun x => p x = false) l.
Proof.
  induction l as [|x l IH]; simpl.
  - split; [constructor|done].
  - destruct (p x) eqn:Hp.
    + split; [done|]. intros HF. inversion HF; congruence.
    + pose proof (findIndex_ge p l).
      destruct (Z.eqb_spec (findIndex p l) (-1)) as [E|E].
      * split; [|done]. intros _. constructor; [done|]. by apply IH.
      * split; [lia|]. intros HF. inversion HF; subst. exfalso. apply E. by apply IH.
Qed.

Lemma findIndex_some {A} (p : A -> bool) l :
  findIndex p l <> -1 ->
  exists x, l !! Z.to_nat (findIndex p l) = Some x /\ p x = true /\
    forall j y, (j < Z.to_nat (findIndex p l))%nat -> l !! j = Some y -> p y = false.
Proof.
  induction l as [|x l IH]; simpl; [done|].
  destruct (p x) eqn:Hp.
  - intros _. exists x. repeat split; [done|]. intros j y Hj. simpl in Hj. lia.
  - pose proof (findIndex_ge p l).
    destruct (Z.eqb_spec (findIndex p l) (-1)) as [E|E]; [done|]. intros _.
    destruct (IH E) as (y & Hy & Hpy & Hbefore). exists y.
    replace (Z.to_nat (findIndex p l + 1)) with (S (Z.to_nat (findIndex p l))) by lia.
    repeat split; [done|done|]. intros [|j] z Hj Hz; simpl in Hz.
    + by simplify_eq.
    + eapply Hbefore; [|done]. lia.
Qed.

Lemma find_findIndex {A} (p : A -> bool) l :
  find p l = if findIndex p l =? -1 then None else l !! Z.to_nat (findIndex p l).
Proof.
  induction l as [|x l IH]; simpl; [done|].
  destruct (p x); [done|]. rewrite IH.
  pose proof (findIndex_ge p l).
  destruct (Z.eqb_spec (findIndex p l) (-1)) as [E|E]; [done|].
  destruct (Z.eqb_spec (findIndex p l + 1) (-1)); [lia|].
  by replace (Z.to_nat (findIndex p l + 1)) with (S (Z.to_nat (findIndex p l))) by lia.
Qed.

Lemma NoDup_insert_fresh {A} (l : list A) (i : nat) (x : A) :
  NoDup l -> (forall j : nat, l !! j = Some x -> j = i) -> NoDup (<[i := x]> l).
Proof.
  intros Hnd Hfresh.
  destruct (decide (i < List.length l)%nat) as [Hi|Hi];
    [|by rewrite list_insert_ge by lia].
  apply NoDup_alt. intros j k y Hj Hk.
  destruct (decide (j = i)) as [->|Hji], (decide (k = i)) as [->|Hki]; [done|..].
  - rewrite list_lookup_insert_eq in Hj by done.
    rewrite list_lookup_insert_ne in Hk by done. simplify_eq.
    symmetry. by apply Hfresh.
  - rewrite list_lookup_insert_eq in Hk by done.
    rewrite list_lookup_insert_ne in Hj by done. simplify_eq.
    by apply Hfresh.
  - rewrite list_lookup_insert_ne in Hj, Hk by done.
    by eapply NoDup_lookup.
Qed.

Lemma split_no_space t : has_space t = false -> split " "%char t = [t].
Proof.
  induction t as [|a t IH]; simpl; [done|].
  intros [Ha Ht]%orb_false_elim. rewrite Ha, (IH Ht). done.
Qed.

Lemma header_token_bearer t :
  has_space t = false -> header_token (Some ("Bearer " +:+ t)) = Some t.
Proof.
  intros Ht. change (split " "%char t !! 0%nat = Some t).
  by rewrite (split_no_space _ Ht).
Qed.

Lemma split_before_space w t :
  has_space w = false ->
  split " "%char (w +:+ String " "%char t) = w :: split " "%char t.
Proof.
  induction w as [|a w IH]; [done|].
  intros [Ha Hw]%orb_false_elim.
  change (String a w +:+ String " "%char t)
    with (String a (w +:+ String " "%char t)).
  cbn [split]. by rewrite Ha, (IH Hw).
Qed.

Lemma header_token_word_token w t :
  has_space w = false -> has_space t = false ->
  header_token (Some (w +:+ " " +:+ t)) = Some t.
Proof.
  intros Hw Ht. unfold header_token.
  change (w +:+ " " +:+ t) with (w +:+ String " "%char t).
  rewrite (split_before_space _ _ Hw), (split_no_space _ Ht).
  by destruct w.
Qed.

Lemma header_token_single w :
  has_space w = false -> falsy (header_token (Some w)) = true.
Proof.
  intros Hw. unfold header_token.
  destruct (String.eqb_spec w "") as [?|_]; [done|].
  by rewrite (split_no_space _ Hw).
Qed.

Lemma header_token_empty_field w rest :
  has_space w = false ->
  rest = "" \/ (exists rest', rest = String " "%char rest') ->
  falsy (header_token (Some (w +:+ " " +:+ rest))) = true.
Proof.
  intros Hw Hrest. unfold header_token.
  change (w +:+ " " +:+ rest) with (w +:+ String " "%char rest).
  rewrite (split_before_space _ _ Hw).
  assert (Hne : String.eqb (w +:+ String " "%char rest) "" = false)
    by (by destruct w).
  rewrite Hne. by destruct Hrest as [->|[rest' ->]].
Qed.

Lemma findIndex_NaN (users : list User) :
  findIndex (fun u => strict_eq (User.id u) NaN) users = -1.
Proof. apply findIndex_none, Forall_forall. intros u _. apply strict_eq_NaN. Qed.

(** ** The rate limiter *)







(** ** The pipeline *)

Section Pipeline.
Context `{R : Runtime}.

Lemma status_send m r : status (send m r) = status r.
Proof. unfold send. by destruct (decide (m = HEAD)). Qed.

Lemma send_plain m r : m <> HEAD -> send m r = r.
Proof. intros Hm. unfold send. by rewrite decide_False. Qed.


Lemma handle_passed now req st b :
  method req <> OPTIONS ->
  body req = Some b -> admitted now req st ->
  handle now req st =
    {| res := send (method req) (response (dispatch now req b (users st)));
       state := {| users := users_after (dispatch now req b (users st));
                   storage := (consume (storage st) (ip req) now).2 |};
       log := logged (dispatch now req b (users st)) |}.
Proof.
  unfold admitted, handle. intros Hm -> Hc. rewrite decide_False by done.
  destruct (consume (storage st) (ip req) now) as [resolved storage'].
  simpl in Hc. by subst.
Qed.

Lemma handle_admitted now req st b :
  body req = Some b -> admitted now req st ->
  method req <> OPTIONS -> method req <> HEAD ->
  handle now req st =
    {| res := response (dispatch now req b (users st));
       state := {| users := users_after (dispatch now req b (users st));
                   storage := (consume (storage st) (ip req) now).2 |};
       log := logged (dispatch now req b (users st)) |}.
Proof.
  intros Hb Hc Ho Hh. rewrite (handle_passed _ _ _ _ Ho Hb Hc).
  by rewrite send_plain.
Qed.


Lemma dispatch_failure now req b us :
  400 <= status (response (dispatch now req b us)) ->
  users_after (dispatch now req b us) = us.
Proof.
  unfold dispatch, post_auth_login, get_users, get_users_id, post_users,
    put_users_id, delete_users_id, get_protected, validation_failed.
  repeat case_match; simpl; first [done | lia].
Qed.

Lemma present_findIndex (id : number) (us : list User) :
  (exists u, u ∈ us /\ strict_eq (User.id u) id = true) ->
  findIndex (fun u => strict_eq (User.id u) id) us <> -1.
Proof.
  intros (u & Hu & Hid) Hnone. apply findIndex_none in Hnone.
  rewrite Forall_forall in Hnone. specialize (Hnone u Hu). simpl in Hnone.
  congruence.
Qed.

(** C4. A request that is answered with an error status (400 or above: the
    validation error, the rejection by the rate limiter, the failures of
    authentication, not found and the internal error) leaves the array of
    users as it was before the request. *)
Theorem C4_failed_request_keeps_users now req st :
  400 <= status (res (handle now req st)) ->
  users (state (handle now req st)) = users st.
Proof.
  unfold handle. destruct (decide (method req = OPTIONS)); [done|].
  destruct (body req) as [b|]; [|done].
  destruct (consume (storage st) (ip req) now) as [[|] storage']; simpl; [|done].
  rewrite status_send. apply dispatch_failure.
Qed.

(** C9. When [parseInt] of the path parameter is [NaN], GET, PUT with a valid
    body and DELETE on /users/:id answer 404 "User not found", and the array
    of users stays as it is. *)
Theorem C9_NaN_id_not_found now req st b param :
  parseInt param = NaN ->
  path req = ["users"; param] ->
  body req = Some b ->
  admitted now req st ->
  (method req = GET \/ method req = DELETE \/
   (method req = PUT /\ exists d, UserCreateSchema_parse b = Returns d)) ->
  res (handle now req st) =
    {| status := 404; payload := BodyError "User not found" |} /\
  users (state (handle now req st)) = users st.
Proof.
  intros Hnan Hpath Hbody Hadm Hm.
  rewrite (handle_admitted _ _ _ _ Hbody Hadm)
    by (destruct Hm as [-> | [-> | [-> _]]]; done).
  simpl. unfold dispatch. rewrite Hpath.
  destruct Hm as [-> | [-> | [-> [d Hd]]]]; simpl.
  - unfold get_users_id. rewrite find_findIndex, Hnan, findIndex_NaN. done.
  - unfold delete_users_id. rewrite Hnan, findIndex_NaN. done.
  - unfold put_users_id. rewrite Hd, Hnan, findIndex_NaN. done.
Qed.

(** C8. PUT /users/:id with an id that is present and a body that passes the
    schema answers 200 with the record made of the path id and the payload;
    the first record with that id is replaced by it, the array keeps its
    length, and every other position keeps its record. *)
Theorem C8_put_replaces_one_record now req st b param d :
  method req = PUT ->
  path req = ["users"; param] ->
  body req = Some b ->
  UserCreateSchema_parse b = Returns d ->
  admitted now req st ->
  (exists u, u ∈ users st /\ strict_eq (User.id u) (parseInt param) = true) ->
  let updatedUser :=
    {| User.id := parseInt param; User.name := UserCreate.name d;
       User.email := UserCreate.email d; User.age := UserCreate.age d |} in
  let users' := users (state (handle now req st)) in
  res (handle now req st) = {| status := 200; payload := BodyUser updatedUser |} /\
  exists (i : nat) (old : User),
    users st !! i = Some old /\
    User.id old = parseInt param /\
    (forall (j : nat) (y : User), (j < i)%nat -> users st !! j = Some y ->
       strict_eq (User.id y) (parseInt param) = false) /\
    users' = <[i := updatedUser]> (users st) /\
    users' !! i = Some updatedUser /\
    List.length users' = List.length (users st) /\
    (forall j : nat, j <> i -> users' !! j = users st !! j).
Proof.
  intros Hm Hpath Hbody Hd Hadm Hpresent updatedUser users'.
  subst users'. rewrite (handle_admitted _ _ _ _ Hbody Hadm) by (by rewrite Hm). simpl.
  unfold dispatch. rewrite Hm, Hpath. simpl.
  unfold put_users_id. rewrite Hd.
  pose proof (present_findIndex _ _ Hpresent) as Hidx.
  destruct (findIndex_some _ _ Hidx) as (old & Hold & Hid & Hbefore).
  destruct (Z.eqb_spec (findIndex (fun u => strict_eq (User.id u) (parseInt param))
                                  (users st)) (-1)) as [E|_]; [done|].
  simpl. split; [done|].
  eexists _, old. split; [exact Hold|].
  split; [by apply strict_eq_true|].
  split; [exact Hbefore|].
  split; [done|].
  split; [apply list_lookup_insert_eq; by eapply lookup_lt_Some|].
  split; [apply length_insert|].
  intros j Hj. by apply list_lookup_insert_ne.
Qed.

Lemma handle_post_users now req st b d :
  method req = POST -> path req = ["users"] -> body req = Some b ->
  UserCreateSchema_parse b = Returns d -> admitted now req st ->
  let newUser :=
    {| User.id := num_add (Math_max (ids (users st))) (Int 1);
       User.name := UserCreate.name d; User.email := UserCreate.email d;
       User.age := UserCreate.age d |} in
  res (handle now req st) = {| status := 201; payload := BodyUser newUser |} /\
  users (state (handle now req st)) = users st ++ [newUser].
Proof.
  intros Hm Hpath Hbody Hd Hadm.
  rewrite (handle_admitted _ _ _ _ Hbody Hadm) by (by rewrite Hm). simpl.
  unfold dispatch. rewrite Hm, Hpath. simpl.
  unfold post_users. rewrite Hd. done.
Qed.

(** C10. The id that POST /users assigns is one more than the greatest id of
    the records that the array holds at that time (for a greatest id in the
    range where adding one is exact); on the empty array it is [-Infinity],
    which is not a positive integer. *)
Theorem C10_new_id_is_current_max_plus_one now req st b d :
  method req = POST ->
  path req = ["users"] ->
  body req = Some b ->
  UserCreateSchema_parse b = Returns d ->
  admitted now req st ->
  exists newUser,
    res (handle now req st) = {| status := 201; payload := BodyUser newUser |} /\
    users (state (handle now req st)) = users st ++ [newUser] /\
    (forall m, greatest (Int m) (ids (users st)) -> - two53 <= m < two53 ->
       User.id newUser = Int (m + 1)) /\
    (users st = [] ->
       User.id newUser = NegInf /\ ~ is_positive_integer (User.id newUser)).
Proof.
  intros Hm Hpath Hbody Hd Hadm.
  destruct (handle_post_users _ _ _ _ _ Hm Hpath Hbody Hd Hadm) as [Hres Hus].
  eexists. split; [exact Hres|]. split; [exact Hus|]. simpl. split.
  - intros m Hgr Hrange. rewrite (Math_max_greatest _ _ Hgr). simpl.
    apply round_double_exact. unfold two53 in *. lia.
  - intros ->. simpl. split; [done|]. intros (z & Hz & _). discriminate.
Qed.

(** C1, as amended. When POST /users accepts a valid payload while the
    greatest id of the array is an integer in the range where adding one is
    exact (so the array is not empty), the assigned id is strictly greater
    than the id of every record that the array holds at that time, and so
    differs from each of them. *)
Theorem C1_new_id_above_stored_ids now req st b d m :
  method req = POST ->
  path req = ["users"] ->
  body req = Some b ->
  UserCreateSchema_parse b = Returns d ->
  admitted now req st ->
  greatest (Int m) (ids (users st)) ->
  - two53 <= m < two53 ->
  exists newUser,
    res (handle now req st) = {| status := 201; payload := BodyUser newUser |} /\
    users (state (handle now req st)) = users st ++ [newUser] /\
    forall u, u ∈ users st ->
      num_lt (User.id u) (User.id newUser) /\ User.id u <> User.id newUser.
Proof.
  intros Hm Hpath Hbody Hd Hadm Hgr Hrange.
  destruct (handle_post_users _ _ _ _ _ Hm Hpath Hbody Hd Hadm) as [Hres Hus].
  eexists. split; [exact Hres|]. split; [exact Hus|]. simpl.
  rewrite (Math_max_greatest _ _ Hgr). simpl.
  rewrite round_double_exact by (unfold two53 in *; lia).
  intros u Hu. destruct Hgr as [_ Hle].
  assert (Hu' : num_le (User.id u) (Int m)).
  { apply Hle. unfold ids. apply list_elem_of_fmap. by exists u. }
  destruct (User.id u); simpl in *; try done. split; [lia|]. intros [= ?]. lia.
Qed.

Lemma route_of_method m p :
  match route_of m p with
  | auth_login | users_post => m = POST
  | users_put _ => m = PUT
  | users_delete _ => m = DELETE
  | no_route => True
  | _ => m = GET \/ m = HEAD
  end.
Proof.
  unfold route_of. destruct m; simpl; repeat case_match; simplify_eq; auto.
Qed.

Lemma dispatch_keeps_emails_unique now req b us :
  body req = Some b -> NoDup (emails us) -> email_free req us ->
  NoDup (emails (users_after (dispatch now req b us))).
Proof.
  intros Hbody Hnd Hfree. specialize (Hfree b). unfold dispatch.
  pose proof (route_of_method (method req) (path req)) as Hmethod.
  destruct (route_of (method req) (path req)) eqn:Hroute; try done;
    try rewrite Hmethod in *.
  - clear Hfree. unfold post_auth_login, validation_failed. by repeat case_match.
  - clear Hfree. unfold get_users_id. by case_match.
  - unfold post_users, validation_failed.
    destruct (UserCreateSchema_parse b) as [d|e]; [|done]. simpl.
    unfold emails. rewrite fmap_app. apply NoDup_app. split; [done|].
    split; [|apply NoDup_singleton].
    intros x Hx [->|Hin]%elem_of_cons.
    + by apply (Hfree d Hbody eq_refl).
    + by apply elem_of_nil in Hin.
  - unfold put_users_id, validation_failed.
    destruct (UserCreateSchema_parse b) as [d|e]; [|done].
    case_match; [done|]. simpl.
    unfold emails. rewrite list_fmap_insert. simpl.
    apply NoDup_insert_fresh; [done|].
    intros j Hj. apply list_lookup_fmap_Some in Hj as (u & Heq & Hu).
    destruct (Hfree d Hbody eq_refl j u Hu) as (param' & Hparam & Hj);
      [done|].
    rewrite Hroute in Hparam. injection Hparam as <-.
    pose proof (findIndex_ge (fun u => strict_eq (User.id u) (parseInt param)) us).
    lia.
  - clear Hfree. unfold delete_users_id. case_match; [done|]. simpl.
    eapply sublist_NoDup; [exact Hnd|].
    unfold emails. rewrite list_fmap_delete. apply sublist_delete.
  - clear Hfree. unfold get_protected. by case_match.
Qed.

Lemma handle_keeps_emails_unique now req st :
  NoDup (emails (users st)) -> email_free req (users st) ->
  NoDup (emails (users (state (handle now req st)))).
Proof.
  intros Hnd Hfree. unfold handle.
  destruct (decide (method req = OPTIONS)); [done|].
  destruct (body req) as [b|] eqn:Hbody; [|done].
  destruct (consume (storage st) (ip req) now) as [[|] storage']; simpl; [|done].
  by apply dispatch_keeps_emails_unique.
Qed.

(** C3, as amended. From a state whose records hold distinct addresses,
    along every sequence of requests in which the address of each POST or
    PUT body that passes the schema is held by no record, other than the
    record that the request replaces when it is a PUT /users/:id, no two
    records of the array hold the same address. *)
Theorem C3_emails_unique_when_payloads_fresh reqs : forall st,
  NoDup (emails (users st)) ->
  all_email_free reqs st ->
  NoDup (emails (users (run reqs st).2)).
Proof.
  induction reqs as [|[now req] reqs IH]; intros st Hnd Hfree; simpl; [done|].
  destruct Hfree as [Hreq Hrest].
  specialize (IH (state (handle now req st))
                 (handle_keeps_emails_unique _ _ _ Hnd Hreq) Hrest).
  by destruct (run reqs (state (handle now req st))).
Qed.

Lemma handle_protected now req st b :
  method req = GET -> path req = ["protected"] -> body req = Some b ->
  admitted now req st ->
  res (handle now req st) =
    response (get_protected now (authorization req) (users st)) /\
  log (handle now req st) =
    logged (get_protected now (authorization req) (users st)) /\
  users (state (handle now req st)) = users st.
Proof.
  intros Hm Hpath Hbody Hadm.
  rewrite (handle_admitted _ _ _ _ Hbody Hadm) by (by rewrite Hm). simpl.
  unfold dispatch. rewrite Hm, Hpath. simpl.
  repeat split. unfold get_protected. by case_match.
Qed.

(** C5, as amended. On GET /protected: when the Authorization header is
    absent, is a single word without a space, or has nothing between its
    first space and the next space or its end, the answer is 401; when the
    header is a word, a space and a non-empty token without spaces, whatever
    the word, and the token does not verify, because it is malformed, its
    signature does not match or its expiry time is reached, the answer is
    403. In both cases the handler of the route does not run: nothing is
    logged and the array of users is untouched. *)
Theorem C5_protected_without_valid_token now req st b :
  method req = GET ->
  path req = ["protected"] ->
  body req = Some b ->
  admitted now req st ->
  (forall word rest,
     has_space word = false ->
     authorization req = None \/
     authorization req = Some word \/
     (authorization req = Some (word +:+ " " +:+ rest) /\
      (rest = "" \/ exists rest', rest = String " "%char rest')) ->
     res (handle now req st) =
       {| status := 401; payload := BodyError "Access token required" |} /\
     log (handle now req st) = [] /\
     users (state (handle now req st)) = users st) /\
  (forall word token,
     authorization req = Some (word +:+ " " +:+ token) ->
     has_space word = false -> has_space token = false -> token <> "" ->
     (jwt_decode JWT_SECRET token = None \/
      exists user, jwt_decode JWT_SECRET token = Some user /\
                   JwtPayload.exp user <= now / 1000) ->
     res (handle now req st) =
       {| status := 403; payload := BodyError "Invalid token" |} /\
     log (handle now req st) = [] /\
     users (state (handle now req st)) = users st).
Proof.
  intros Hm Hpath Hbody Hadm.
  destruct (handle_protected _ _ _ _ Hm Hpath Hbody Hadm) as (-> & -> & ->).
  unfold get_protected, authenticateToken. split.
  - intros word rest Hword Hheader.
    assert (falsy (header_token (authorization req)) = true) as ->; [|done].
    destruct Hheader as [->|[->|[-> Hrest]]].
    + done.
    + by apply header_token_single.
    + by apply header_token_empty_field.
  - intros word token -> Hword Htoken Hne Hbad.
    rewrite (header_token_word_token _ _ Hword Htoken). simpl.
    destruct (String.eqb_spec token "") as [?|_]; [done|].
    assert (jwt_verify token JWT_SECRET now = None) as ->; [|done].
    unfold jwt_verify. destruct Hbad as [->|(user & -> & Hexp)]; [done|].
    by destruct (Z.leb_spec (JwtPayload.exp user) (now / 1000)); [|lia].
Qed.

Lemma dispatch_login_inv now req b us token id username :
  response (dispatch now req b us) =
    {| status := 200; payload := BodyLogin token id username |} ->
  token = jwt_sign id username JWT_SECRET now.
Proof.
  unfold dispatch, post_auth_login, get_users, get_users_id, post_users,
    put_users_id, delete_users_id, get_protected, authenticateToken,
    validation_failed.
  repeat case_match; simpl; intros ?; by simplify_eq.
Qed.

(** C6. A token that POST /auth/login issues at time [t0] expires at the
    second [t0 / 1000 + 86400]. Presented as "Bearer <token>" on
    GET /protected, it is accepted with its payload at every time before
    that second, and answered 403 at every time from that second on. The
    token is assumed to verify under the secret that signed it and to be a
    non-empty string without a space, as the tokens of jsonwebtoken are. *)
Theorem C6_login_token_valid_until_expiry t0 req0 st0 token id username :
  res (handle t0 req0 st0) =
    {| status := 200; payload := BodyLogin token id username |} ->
  let issued :=
    {| JwtPayload.id := id; JwtPayload.username := username;
       JwtPayload.iat := t0 / 1000; JwtPayload.exp := t0 / 1000 + 86400 |} in
  jwt_decode JWT_SECRET (jwt_encode JWT_SECRET issued) = Some issued ->
  has_space (jwt_encode JWT_SECRET issued) = false ->
  jwt_encode JWT_SECRET issued <> "" ->
  forall t req st b,
    method req = GET ->
    path req = ["protected"] ->
    authorization req = Some ("Bearer " +:+ token) ->
    body req = Some b ->
    admitted t req st ->
    (t < (t0 / 1000 + 86400) * 1000 ->
       res (handle t req st) =
         {| status := 200; payload := BodyProtected issued |} /\
       log (handle t req st) = [info_protected username]) /\
    ((t0 / 1000 + 86400) * 1000 <= t ->
       res (handle t req st) =
         {| status := 403; payload := BodyError "Invalid token" |} /\
       log (handle t req st) = []).
Proof.
  intros Hlogin issued Hdecode Hspace Hne t req st b Hm Hpath Hauth Hbody Hadm.
  assert (Htoken : token = jwt_encode JWT_SECRET issued).
  { revert Hlogin. unfold handle, send.
    destruct (decide (method req0 = OPTIONS)); [done|].
    destruct (decide (method req0 = HEAD));
      [repeat case_match; simpl; intros ?; by simplify_eq|].
    destruct (body req0) as [b0|]; [|done].
    destruct (consume (storage st0) (ip req0) t0) as [[|] ?]; simpl; [|done].
    apply dispatch_login_inv. }
  destruct (handle_protected _ _ _ _ Hm Hpath Hbody Hadm) as (-> & -> & _).
  unfold get_protected, authenticateToken.
  rewrite Hauth, Htoken, (header_token_bearer _ Hspace). simpl.
  destruct (String.eqb_spec (jwt_encode JWT_SECRET issued) "") as [?|_]; [done|].
  unfold jwt_verify. rewrite Hdecode. simpl.
  pose proof (seconds_lt t (t0 / 1000 + 86400)) as Hsec.
  split; intros Ht.
  - by destruct (Z.leb_spec (t0 / 1000 + 86400) (t / 1000)); [lia|].
  - by destruct (Z.leb_spec (t0 / 1000 + 86400) (t / 1000)); [|lia].
Qed.



Lemma run_cons now req reqs st :
  (run ((now, req) :: reqs) st).1 =
    res (handle now req st) :: (run reqs (state (handle now req st))).1 /\
  (run ((now, req) :: reqs) st).2 = (run reqs (state (handle now req st))).2.
Proof. simpl. by destruct (run reqs (state (handle now req st))). Qed.






End Pipeline.

(** ** Deleting and fetching *)

Lemma delete_users_id_absent param us :
  (forall u, u ∈ us -> strict_eq (User.id u) (parseInt param) = false) ->
  delete_users_id param us =
    respond 404 (BodyError "User not found") us
            [warn_delete_not_found (parseInt param)].
Proof.
  intros Habsent. unfold delete_users_id.
  assert (findIndex (fun u => strict_eq (User.id u) (parseInt param)) us = -1) as ->.
  { by apply findIndex_none, Forall_forall. }
  done.
Qed.

(** Where one record at most has the id, the record is gone after DELETE
    and a GET of the id is answered 404. *)
Lemma delete_then_get_single param us :
  (forall (i j : nat) u v, us !! i = Some u -> us !! j = Some v ->
     strict_eq (User.id u) (parseInt param) = true ->
     strict_eq (User.id v) (parseInt param) = true -> i = j) ->
  (exists u, u ∈ us /\ strict_eq (User.id u) (parseInt param) = true) ->
  response (delete_users_id param us) = {| status := 204; payload := BodyEmpty |} /\
  response (get_users_id param (users_after (delete_users_id param us))) =
    {| status := 404; payload := BodyError "User not found" |}.
Proof.
  intros Hsingle Hpresent.
  pose proof (present_findIndex _ _ Hpresent) as Hidx.
  destruct (findIndex_some _ _ Hidx) as (x & Hx & Hpx & _).
  unfold delete_users_id.
  destruct (Z.eqb_spec (findIndex (fun u => strict_eq (User.id u) (parseInt param)) us)
                       (-1)) as [?|_]; [done|].
  simpl. split; [done|].
  set (i := Z.to_nat (findIndex (fun u => strict_eq (User.id u) (parseInt param)) us)) in *.
  unfold get_users_id. rewrite find_findIndex.
  assert (findIndex (fun u => strict_eq (User.id u) (parseInt param)) (delete i us)
          = -1) as ->; [|done].
  apply findIndex_none, Forall_lookup. intros j y Hy.
  destruct (strict_eq (User.id y) (parseInt param)) eqn:Hpy; [|done].
  rewrite list_lookup_delete in Hy. destruct (decide (j < i)%nat) as [Hlt|Hge].
  - pose proof (Hsingle _ _ _ _ Hy Hx Hpy Hpx). lia.
  - pose proof (Hsingle _ _ _ _ Hy Hx Hpy Hpx). lia.
Qed.

(** ** Instances of the statements on the sample runtime *)

Lemma C4_witness :
  400 <= status (res (@handle sample 0 (request DELETE ["users"; "99"] (object [])) init)) /\
  users (state (@handle sample 0 (request DELETE ["users"; "99"] (object [])) init))
    = users init.
Proof.
  split; [vm_compute; discriminate|].
  apply (@C4_failed_request_keeps_users sample). vm_compute. discriminate.
Defined.

Lemma C9_witness :
  parseInt "abc" = NaN /\
  res (@handle sample 0 (request GET ["users"; "abc"] (object [])) init) =
    {| status := 404; payload := BodyError "User not found" |}.
Proof.
  split; [reflexivity|].
  apply (@C9_NaN_id_not_found sample 0 (request GET ["users"; "abc"] (object []))
           init (object []) "abc"); [reflexivity..|by left].
Defined.

Lemma C8_witness :
  users (state (@handle sample 0 (request PUT ["users"; "2"] carol) init)) =
    [ {| User.id := Int 1; User.name := "Alice Johnson";
         User.email := "alice@example.com"; User.age := Some 30%Q |};
      {| User.id := Int 2; User.name := "Carol";
         User.email := "carol@example.com"; User.age := None |} ].
Proof.
  destruct (@C8_put_replaces_one_record sample 0 (request PUT ["users"; "2"] carol)
              init carol "2"
              {| UserCreate.name := "Carol"; UserCreate.email := "carol@example.com";
                 UserCreate.age := None |})
    as (_ & i & old & _ & _ & _ & Hus & _); [reflexivity..| |].
  - eexists. split; [apply list_elem_of_lookup; by exists 1%nat|reflexivity].
  - reflexivity.
Defined.

Lemma C10_witness :
  exists newUser,
    res (@handle sample 0 (request POST ["users"] carol) init) =
      {| status := 201; payload := BodyUser newUser |} /\
    User.id newUser = Int 3.
Proof.
  destruct (@C10_new_id_is_current_max_plus_one sample 0
              (request POST ["users"] carol) init carol
              {| UserCreate.name := "Carol"; UserCreate.email := "carol@example.com";
                 UserCreate.age := None |})
    as (newUser & Hres & _ & Hmax & _); [reflexivity..|].
  exists newUser. split; [exact Hres|].
  apply (Hmax 2).
  - split; [apply list_elem_of_lookup; by exists 1%nat|].
    intros y Hy. vm_compute in Hy.
    apply elem_of_cons in Hy as [->|Hy]; [simpl; lia|].
    apply elem_of_cons in Hy as [->|Hy]; [simpl; lia|].
    by apply elem_of_nil in Hy.
  - unfold two53. lia.
Defined.

Lemma C1_witness :
  exists newUser,
    res (@handle sample 0 (request POST ["users"] carol) init) =
      {| status := 201; payload := BodyUser newUser |} /\
    forall u, u ∈ users init -> num_lt (User.id u) (User.id newUser).
Proof.
  destruct (@C1_new_id_above_stored_ids sample 0
              (request POST ["users"] carol) init carol
              {| UserCreate.name := "Carol"; UserCreate.email := "carol@example.com";
                 UserCreate.age := None |} 2)
    as (newUser & Hres & _ & Habove); [reflexivity..| | |].
  - split; [apply list_elem_of_lookup; by exists 1%nat|].
    intros y Hy. vm_compute in Hy.
    apply elem_of_cons in Hy as [->|Hy]; [simpl; lia|].
    apply elem_of_cons in Hy as [->|Hy]; [simpl; lia|].
    by apply elem_of_nil in Hy.
  - unfold two53. lia.
  - exists newUser. split; [exact Hres|]. intros u Hu. by apply Habove.
Defined.

(** C1, as stated, fails: the id 3 is assigned, its record is deleted, and
    the next POST assigns 3 again, so the ids assigned by the two POSTs are
    neither distinct nor increasing. *)
Lemma C1_counterexample :
  ~ strictly_increasing
      (assigned_ids
         (@run sample [ (0, request POST ["users"] carol);
                        (1, request DELETE ["users"; "3"] (object []));
                        (2, request POST ["users"] carol) ] init).1).
Proof.
  intros Hinc.
  assert (Hlt : num_lt (Int 3) (Int 3)).
  { apply (Hinc 0%nat 1%nat); [lia|reflexivity|reflexivity]. }
  simpl in Hlt. lia.
Qed.

Lemma C3_witness :
  NoDup (emails (users (@run sample [ (0, request POST ["users"] carol);
                                      (1, request PUT ["users"; "1"] alice_again) ]
                             init).2)).
Proof.
  apply (@C3_emails_unique_when_payloads_fresh sample).
  - by_decide.
  - split; [|split; [|exact I]].
    + intros b d Hb Hd. injection Hb as <-. vm_compute in Hd. injection Hd as <-.
      change ("carol@example.com" ∉ emails users0). by_decide.
    + intros b d Hb Hd. injection Hb as <-. vm_compute in Hd. injection Hd as <-.
      change (forall (j : nat) (u : User),
        users (state (@handle sample 0 (request POST ["users"] carol) init)) !! j
          = Some u ->
        User.email u = "alice@example.com" ->
        exists param,
          route_of PUT ["users"; "1"] = users_put param /\
          Z.of_nat j =
            findIndex (fun u => strict_eq (User.id u) (parseInt param))
              (users (state (@handle sample 0 (request POST ["users"] carol)
                               init)))).
      intros j u Hu He. exists "1". split; [reflexivity|].
      vm_compute in Hu.
      destruct j as [|[|[|j]]]; simplify_eq; first [reflexivity | discriminate He].
Defined.

(** C3, as stated, fails: POST /users with the address of the first record is
    accepted, and two records hold that address afterwards. *)
Lemma C3_counterexample :
  ~ NoDup (emails (users (@run sample [ (0, request POST ["users"] alice_again) ]
                                init).2)).
Proof.
  intros Hnd. vm_compute in Hnd.
  apply NoDup_cons in Hnd as [Hnotin _]. apply Hnotin. set_solver.
Qed.

Lemma C5_witness :
  res (@handle sample 0 garbage_request init) =
    {| status := 403; payload := BodyError "Invalid token" |} /\
  res (@handle sample 0 (request GET ["protected"] (object [])) init) =
    {| status := 401; payload := BodyError "Access token required" |}.
Proof.
  split.
  - destruct (@C5_protected_without_valid_token sample 0 garbage_request init
                (object [])) as [_ Hbad]; [reflexivity..|].
    destruct (Hbad "Bearer" "garbage") as (Hres & _);
      [reflexivity|reflexivity|reflexivity|discriminate|by left|].
    exact Hres.
  - destruct (@C5_protected_without_valid_token sample 0
                (request GET ["protected"] (object [])) init (object []))
      as [Hmissing _]; [reflexivity..|].
    destruct (Hmissing "" "" eq_refl (or_introl eq_refl)) as (Hres & _).
    exact Hres.
Defined.

(** C5, as stated, fails: the header "Basic <token>" holds no bearer token,
    and with a token that verifies the request is answered 200 by the
    handler of the route, which logs the access. *)
Lemma C5_counterexample :
  ~ bearer_token_present (authorization basic_request) /\
  res (@handle sample 1700000900000 basic_request init) =
    {| status := 200; payload := BodyProtected sample_payload |} /\
  log (@handle sample 1700000900000 basic_request init) =
    [info_protected "admin"].
Proof.
  split; [|split; reflexivity].
  intros (token & _ & Hheader). vm_compute in Hheader. discriminate Hheader.
Qed.

Lemma C6_witness :
  res (@handle sample 1700000000123 login_request init) =
    {| status := 200; payload := BodyLogin sample_token (Int 1) "admin" |} /\
  res (@handle sample 1700000900000 protected_request init) =
    {| status := 200; payload := BodyProtected sample_payload |} /\
  status (res (@handle sample 1700086400000 protected_request init)) = 403.
Proof.
  split; [reflexivity|].
  pose proof (@C6_login_token_valid_until_expiry sample 1700000000123
                login_request init sample_token (Int 1) "admin"
                eq_refl eq_refl eq_refl) as Hvalid.
  split.
  - destruct (Hvalid ltac:(discriminate) 1700000900000 protected_request init (object []))
      as [Hbefore _]; [reflexivity..|].
    destruct Hbefore as [-> _]; [vm_compute; reflexivity|reflexivity].
  - destruct (Hvalid ltac:(discriminate) 1700086400000 protected_request init (object []))
      as [_ Hafter]; [reflexivity..|].
    destruct Hafter as [-> _]; [vm_compute; discriminate|reflexivity].
Defined.


(** C7 at a failing input. After the array was emptied, both records made by
    POST have the id [-Infinity]; a path parameter of 400 digits after a
    minus sign parses to [-Infinity], so DELETE removes the first of the two
    records with 204 and the GET of the same id that follows finds the second
    one and answers 200, not 404. *)
Theorem C7_delete_then_get_with_repeated_id :
  let requests :=
    [ (0, request DELETE ["users"; "1"] (object []));
      (1, request DELETE ["users"; "2"] (object []));
      (2, request POST ["users"] carol);
      (3, request POST ["users"] carol);
      (4, request DELETE ["users"; minus_nines] (object []));
      (5, request GET ["users"; minus_nines] (object [])) ] in
  let carol_record :=
    {| User.id := NegInf; User.name := "Carol";
       User.email := "carol@example.com"; User.age := None |} in
  (@run sample requests init).1 =
    [ {| status := 204; payload := BodyEmpty |};
      {| status := 204; payload := BodyEmpty |};
      {| status := 201; payload := BodyUser carol_record |};
      {| status := 201; payload := BodyUser carol_record |};
      {| status := 204; payload := BodyEmpty |};
      {| status := 200; payload := BodyUser carol_record |} ].
Proof. vm_compute. reflexivity. Qed.

(** ** Further properties of the handlers *)

Section Handlers.
Context `{R : Runtime}.

(** GET /users/:id answers 404 exactly when no record has the id of the
    path; otherwise it answers 200 with the first record that has it. It
    never changes the array. *)
Theorem get_users_id_first_match param us :
  users_after (get_users_id param us) = us /\
  ((response (get_users_id param us) =
      {| status := 404; payload := BodyError "User not found" |} /\
    forall u, u ∈ us -> strict_eq (User.id u) (parseInt param) = false) \/
   (exists (i : nat) (u : User),
      us !! i = Some u /\ User.id u = parseInt param /\
      (forall (j : nat) y, (j < i)%nat -> us !! j = Some y ->
         strict_eq (User.id y) (parseInt param) = false) /\
      response (get_users_id param us) =
        {| status := 200; payload := BodyUser u |})).
Proof.
  unfold get_users_id. rewrite find_findIndex.
  set (p := fun u => strict_eq (User.id u) (parseInt param)).
  destruct (Z.eqb_spec (findIndex p us) (-1)) as [E|E].
  - split; [done|]. left. split; [done|].
    apply findIndex_none in E. rewrite Forall_forall in E. exact E.
  - destruct (findIndex_some p us E) as (x & Hx & Hpx & Hbefore).
    rewrite Hx. split; [done|]. right.
    exists (Z.to_nat (findIndex p us)), x.
    split; [done|]. split; [by apply strict_eq_true|]. by split.
Qed.

Lemma UserCreateSchema_parse_inv body d :
  UserCreateSchema_parse body = Returns d ->
  exists o,
    body = JObject o /\
    o !! "name" = Some (JString (UserCreate.name d)) /\
    (1 <= String.length (UserCreate.name d) <= 100)%nat /\
    o !! "email" = Some (JString (UserCreate.email d)) /\
    email_pattern (UserCreate.email d) = true /\
    ((o !! "age" = None /\ UserCreate.age d = None) \/
     (exists q, o !! "age" = Some (JNumber q) /\ UserCreate.age d = Some q /\
                Qle_bool 1 q = true /\ Qle_bool q 150 = true)).
Proof.
  intros Hp. destruct body as [| | | | | |o]; try done. exists o.
  simpl in Hp. unfold parse_string, parse_email, parse_age in Hp.
  repeat case_match; simplify_eq; simpl;
    repeat match goal with
    | H : (_ <? _)%nat = false |- _ => apply Nat.ltb_ge in H
    | H : negb _ = false |- _ => apply negb_false_iff in H
    end;
    (repeat split; try done; try lia;
     first [left; done | right; eexists; done]).
Qed.

Lemma UserCreateSchema_parse_valid body d :
  UserCreateSchema_parse body = Returns d ->
  valid_fields (UserCreate.name d) (UserCreate.email d) (UserCreate.age d).
Proof.
  intros (o & _ & _ & Hlen & _ & Hpat & Hage)%UserCreateSchema_parse_inv.
  split; [done|]. split; [done|].
  destruct Hage as [[_ ->]|(q & _ & -> & H1 & H2)]; done.
Qed.

(** [UserCreateSchema.parse] accepts exactly the objects whose name is a
    string of 1 to 100 characters, whose email is a string that matches the
    pattern and whose age is missing or a number from 1 to 150; the result
    holds these three values. *)
Theorem UserCreateSchema_parse_accepts body d :
  UserCreateSchema_parse body = Returns d <->
  exists o,
    body = JObject o /\
    o !! "name" = Some (JString (UserCreate.name d)) /\
    (1 <= String.length (UserCreate.name d) <= 100)%nat /\
    o !! "email" = Some (JString (UserCreate.email d)) /\
    email_pattern (UserCreate.email d) = true /\
    ((o !! "age" = None /\ UserCreate.age d = None) \/
     (exists q, o !! "age" = Some (JNumber q) /\ UserCreate.age d = Some q /\
                Qle_bool 1 q = true /\ Qle_bool q 150 = true)).
Proof.
  split; [apply UserCreateSchema_parse_inv|].
  intros (o & -> & Hn & Hlen & He & Hpat & Hage). simpl.
  unfold parse_string, parse_email, parse_age. rewrite Hn, He, Hpat.
  destruct (Nat.ltb_spec (String.length (UserCreate.name d)) 1); [lia|].
  destruct (Nat.ltb_spec 100 (String.length (UserCreate.name d))); [lia|].
  simpl. destruct d as [n e a]. simpl in *.
  destruct Hage as [[-> ->]|(q & -> & -> & -> & ->)]; done.
Qed.
(** What the schema accepts does not depend on the other keys of the body:
    a key other than name, email and age, such as an id, changes neither the
    result of POST /users nor the result of PUT /users/:id. *)
Theorem other_keys_are_dropped (k : string) v o param us :
  k <> "name" -> k <> "email" -> k <> "age" ->
  post_users (JObject (<[k := v]> o)) us = post_users (JObject o) us /\
  put_users_id param (JObject (<[k := v]> o)) us =
    put_users_id param (JObject o) us.
Proof.
  intros Hn He Ha.
  assert (Hparse : UserCreateSchema_parse (JObject (<[k := v]> o)) =
                   UserCreateSchema_parse (JObject o)).
  { unfold UserCreateSchema_parse. by rewrite !lookup_insert_ne. }
  unfold post_users, put_users_id. by rewrite Hparse.
Qed.

Lemma parse_string_issues lo hi p v l :
  parse_string lo hi p v = inl l ->
  l <> [] /\ Forall (fun i => ZodIssue.path i = [p]) l.
Proof.
  unfold parse_string. intros Hl.
  repeat case_match; simpl in *; simplify_eq;
    (split; [done|]; repeat (apply Forall_cons_2; [done|]); apply Forall_nil_2).
Qed.

Lemma parse_email_issues p v l :
  parse_email p v = inl l ->
  l <> [] /\ Forall (fun i => ZodIssue.path i = [p]) l.
Proof.
  unfold parse_email. intros Hl.
  repeat case_match; simpl in *; simplify_eq;
    (split; [done|]; repeat (apply Forall_cons_2; [done|]); apply Forall_nil_2).
Qed.

Lemma parse_age_issues p v l :
  parse_age p v = inl l ->
  l <> [] /\ Forall (fun i => ZodIssue.path i = [p]) l.
Proof.
  unfold parse_age. intros Hl.
  repeat case_match; simpl in *; simplify_eq;
    (split; [done|]; repeat (apply Forall_cons_2; [done|]); apply Forall_nil_2).
Qed.

(** A body that the schema rejects is answered by POST /users with 400 and a
    list of issues that is not empty, each of them at the body itself or at
    one of the three fields; the array is unchanged and nothing is logged. *)
Theorem post_users_rejects_with_issues body us e :
  UserCreateSchema_parse body = Throws e ->
  post_users body us = respond 400 (BodyValidation (errors e)) us [] /\
  errors e <> [] /\
  Forall (fun i => ZodIssue.path i = [] \/ ZodIssue.path i = ["name"] \/
                   ZodIssue.path i = ["email"] \/ ZodIssue.path i = ["age"])
         (errors e).
Proof.
  intros Hp. unfold post_users, validation_failed. rewrite Hp. split; [done|].
  assert (Hroot : errors e = [issue invalid_type []] ->
            errors e <> [] /\
            Forall (fun i => ZodIssue.path i = [] \/ ZodIssue.path i = ["name"] \/
                             ZodIssue.path i = ["email"] \/
                             ZodIssue.path i = ["age"]) (errors e)).
  { intros ->. split; [done|]. apply Forall_cons_2; [by left|apply Forall_nil_2]. }
  destruct body as [| | | | | |o]; try (apply Hroot; simpl in Hp; by simplify_eq).
  clear Hroot. simpl in Hp.
  pose proof (parse_string_issues 1 100 "name" (o !! "name")) as Hn.
  pose proof (parse_email_issues "email" (o !! "email")) as He.
  pose proof (parse_age_issues "age" (o !! "age")) as Ha.
  destruct (parse_string 1 100 "name" (o !! "name")) as [ln|n],
           (parse_email "email" (o !! "email")) as [le|em],
           (parse_age "age" (o !! "age")) as [la|a];
    simplify_eq; simpl;
    repeat match goal with
    | H : forall l, inl ?x = inl l -> _ |- _ => specialize (H x eq_refl) as [? ?]
    | H : forall l, inr _ = inl l -> _ |- _ => clear H
    end;
    (split; [intros Hnil; repeat apply app_eq_nil in Hnil as [Hnil ?]; by simplify_eq|]);
    rewrite ?app_nil_r, ?Forall_app; repeat split;
    (eapply Forall_impl; [eassumption|]); simpl; tauto.
Qed.

Lemma put_users_id_ids param body us :
  ids (users_after (put_users_id param body us)) = ids us.
Proof.
  unfold put_users_id, validation_failed.
  destruct (UserCreateSchema_parse body) as [d|e]; [|done].
  set (p := fun u => strict_eq (User.id u) (parseInt param)).
  destruct (Z.eqb_spec (findIndex p us) (-1)) as [E|E]; [done|]. simpl.
  destruct (findIndex_some p us E) as (x & Hx & Hpx & _).
  unfold ids. rewrite list_fmap_insert. simpl.
  apply list_insert_id. rewrite list_lookup_fmap, Hx. simpl.
  f_equal. by apply strict_eq_true.
Qed.

(** PUT /users/:id never changes the ids of the array nor its length,
    whatever it answers: the record it writes has the id of the record it
    replaces. *)
Theorem put_users_id_keeps_ids param body us :
  ids (users_after (put_users_id param body us)) = ids us /\
  List.length (users_after (put_users_id param body us)) = List.length us.
Proof.
  split; [apply put_users_id_ids|].
  rewrite <- (length_fmap User.id us), <- (length_fmap User.id (users_after _)).
  f_equal. apply put_users_id_ids.
Qed.

(** DELETE /users/:id that answers 204 has removed the first record with the
    id of the path and nothing else: the records before and after it are
    kept in their order, and the array is one record shorter. *)
Theorem delete_users_id_removes_first param us :
  status (response (delete_users_id param us)) = 204 ->
  exists (i : nat) (u : User),
    us !! i = Some u /\ User.id u = parseInt param /\
    (forall (j : nat) y, (j < i)%nat -> us !! j = Some y ->
       strict_eq (User.id y) (parseInt param) = false) /\
    users_after (delete_users_id param us) = take i us ++ drop (S i) us /\
    (List.length (users_after (delete_users_id param us)) + 1)%nat =
      List.length us.
Proof.
  unfold delete_users_id.
  set (p := fun u => strict_eq (User.id u) (parseInt param)).
  destruct (Z.eqb_spec (findIndex p us) (-1)) as [E|E]; [done|]. simpl.
  intros _. destruct (findIndex_some p us E) as (x & Hx & Hpx & Hbefore).
  exists (Z.to_nat (findIndex p us)), x.
  split; [done|]. split; [by apply strict_eq_true|]. split; [done|].
  split; [apply delete_take_drop|].
  rewrite length_delete by (by eexists).
  apply lookup_lt_Some in Hx. lia.
Qed.

Lemma find_insert_first {A} (p : A -> bool) (x : A) l : forall i : nat,
  (i < List.length l)%nat -> p x = true ->
  (forall (j : nat) y, (j < i)%nat -> l !! j = Some y -> p y = false) ->
  find p (<[i := x]> l) = Some x.
Proof.
  induction l as [|a l IH]; intros i Hi Hx Hbefore; simpl in Hi; [lia|].
  destruct i as [|i]; simpl.
  - by rewrite Hx.
  - rewrite (Hbefore 0%nat a) by (done || lia).
    apply IH; [lia|done|]. intros j y Hj Hy. apply (Hbefore (S j) y); [lia|done].
Qed.

(** A PUT /users/:id that answers 200 is seen by the GET of the same path
    that follows it: the GET answers with the same record. *)
Theorem put_then_get param body us :
  status (response (put_users_id param body us)) = 200 ->
  response (get_users_id param (users_after (put_users_id param body us))) =
    response (put_users_id param body us).
Proof.
  unfold put_users_id, validation_failed.
  destruct (UserCreateSchema_parse body) as [d|e]; [|done].
  set (p := fun u => strict_eq (User.id u) (parseInt param)).
  destruct (Z.eqb_spec (findIndex p us) (-1)) as [E|E]; [done|]. simpl.
  intros _. destruct (findIndex_some p us E) as (x & Hx & Hpx & Hbefore).
  unfold get_users_id. fold p.
  rewrite (find_insert_first p); [done| | |done].
  - by eapply lookup_lt_Some.
  - subst p. simpl in *. apply strict_eq_true in Hpx as Hid.
    by rewrite Hid in Hpx.
Qed.

Lemma find_app_none {A} (p : A -> bool) l l' :
  Forall (fun x => p x = false) l -> find p (l ++ l') = find p l'.
Proof.
  induction 1 as [|x l Hx _ IH]; simpl; [done|]. by rewrite Hx.
Qed.

(** The record that POST /users creates is the one that the GET of its id
    returns right after, when the greatest id of the array before the POST
    is an integer in the range where adding one is exact. *)
Theorem post_then_get body d us m param :
  UserCreateSchema_parse body = Returns d ->
  greatest (Int m) (ids us) ->
  - two53 <= m < two53 ->
  parseInt param = Int (m + 1) ->
  exists newUser,
    response (post_users body us) =
      {| status := 201; payload := BodyUser newUser |} /\
    response (get_users_id param (users_after (post_users body us))) =
      {| status := 200; payload := BodyUser newUser |}.
Proof.
  intros Hd Hgr Hrange Hparam. unfold post_users. rewrite Hd. simpl.
  eexists. split; [done|]. unfold get_users_id.
  fold (ids us). rewrite (Math_max_greatest _ _ Hgr). simpl.
  rewrite round_double_exact by (unfold two53 in *; lia).
  rewrite find_app_none.
  - simpl. rewrite Hparam. simpl. by rewrite Z.eqb_refl.
  - apply Forall_forall. intros u Hu. rewrite Hparam.
    destruct Hgr as [_ Hle].
    assert (Hu' : num_le (User.id u) (Int m)).
    { apply Hle. unfold ids. apply list_elem_of_fmap. by exists u. }
    destruct (User.id u); simpl in *; try done. apply Z.eqb_neq. lia.
Qed.

(** POST /auth/login never changes the array. It answers 200 exactly when
    the body is an object whose username is "admin" and whose password is a
    string of 6 to 100 characters that bcrypt accepts for the stored hash;
    the answer then carries a token signed at that time for the id 1 and
    the name "admin". Every other answer is 400 or 401. *)
Theorem post_auth_login_admin_only now body us :
  users_after (post_auth_login now body us) = us /\
  (status (response (post_auth_login now body us)) = 200 <->
   exists o p,
     body = JObject o /\
     o !! "username" = Some (JString "admin") /\
     o !! "password" = Some (JString p) /\
     (6 <= String.length p <= 100)%nat /\
     bcrypt_compare p
       "$2a$10$8K1p/a0dURXAU7aHSzU.9OA2w2O3BqASDNr6vW5Ag6dHklhGIh6Ve" = true) /\
  (status (response (post_auth_login now body us)) = 200 ->
   response (post_auth_login now body us) =
     {| status := 200;
        payload := BodyLogin (jwt_sign (Int 1) "admin" JWT_SECRET now)
                             (Int 1) "admin" |}) /\
  (status (response (post_auth_login now body us)) <> 200 ->
   status (response (post_auth_login now body us)) = 400 \/
   response (post_auth_login now body us) =
     {| status := 401; payload := BodyError "Invalid credentials" |}).
Proof.
  unfold post_auth_login, validation_failed.
  destruct (AuthSchema_parse body) as [a|e] eqn:Hp.
  - assert (Hinv : exists o,
              body = JObject o /\
              o !! "username" = Some (JString (AuthRequest.username a)) /\
              o !! "password" = Some (JString (AuthRequest.password a)) /\
              (6 <= String.length (AuthRequest.password a) <= 100)%nat).
    { destruct body as [| | | | | |o]; try done. exists o.
      simpl in Hp. unfold parse_string in Hp.
      repeat case_match; simplify_eq; simpl;
        repeat match goal with
        | H : (_ <? _)%nat = false |- _ => apply Nat.ltb_ge in H
        end; repeat split; try done; lia. }
    destruct Hinv as (o & -> & Hu & Hpw & Hlen).
    unfold authUsers, find.
    cbn [AuthUser.username AuthUser.password AuthUser.id].
    destruct (String.eqb_spec "admin" (AuthRequest.username a)) as [Ha|Ha].
    + cbn [AuthUser.username AuthUser.password AuthUser.id].
      destruct (bcrypt_compare (AuthRequest.password a)
                  "$2a$10$8K1p/a0dURXAU7aHSzU.9OA2w2O3BqASDNr6vW5Ag6dHklhGIh6Ve")
        eqn:Hc; cbn [status response respond users_after].
      * split; [done|]. split; [|by split].
        split; [|done]. intros _. exists o, (AuthRequest.password a).
        rewrite <- Ha in Hu. repeat split; first [done | lia].
      * split; [done|]. split; [|split; [done|by right]].
        split; [done|]. intros (o' & p & [= <-] & Hu' & Hpw' & _ & Hc').
        rewrite Hpw in Hpw'. simplify_eq. congruence.
    + cbn [status response respond users_after].
      split; [done|]. split; [|split; [done|by right]].
      split; [done|]. intros (o' & p & [= <-] & Hu' & _).
      rewrite Hu in Hu'. by simplify_eq.
  - cbn [status response respond users_after].
    split; [done|]. split; [|split; [done|by left]].
    split; [done|]. intros (o & p & -> & Hu & Hpw & Hlen & _).
    simpl in Hp. unfold parse_string in Hp. rewrite Hu, Hpw in Hp. simpl in Hp.
    destruct (Nat.ltb_spec (String.length p) 6); [lia|].
    destruct (Nat.ltb_spec 100 (String.length p)); [lia|]. done.
Qed.

(** GET /protected answers 200 exactly when the second field of the
    Authorization header is a non-empty token that [jwt.verify] accepts at
    that time; the answer then carries the payload of the token. It never
    changes the array. *)
Theorem get_protected_verified_only now h us :
  users_after (get_protected now h us) = us /\
  (status (response (get_protected now h us)) = 200 <->
   exists token user,
     header_token h = Some token /\ token <> "" /\
     jwt_verify token JWT_SECRET now = Some user) /\
  (forall token user,
     header_token h = Some token -> token <> "" ->
     jwt_verify token JWT_SECRET now = Some user ->
     get_protected now h us =
       respond 200 (BodyProtected user) us
               [info_protected (JwtPayload.username user)]).
Proof.
  unfold get_protected, authenticateToken.
  destruct (header_token h) as [token|] eqn:Hh; simpl.
  - destruct (String.eqb_spec token "") as [->|Hne]; simpl.
    + split; [done|]. split; [|by intros ? ? [= <-]].
      split; [done|]. by intros (? & ? & [= <-] & ? & _).
    + destruct (jwt_verify token JWT_SECRET now) as [user|] eqn:Hv; simpl.
      * split; [done|]. split.
        -- split; [|done]. intros _. by exists token, user.
        -- intros ? ? [= <-] _ Hv'. by simplify_eq.
      * split; [done|]. split.
        -- split; [done|]. intros (? & ? & [= <-] & _ & Hv'). congruence.
        -- intros ? ? [= <-] _ Hv'. congruence.
  - split; [done|]. split; [|done]. split; [done|]. by intros (? & ? & ? & _).
Qed.

(** [authenticateToken] does not look at the word before the token: a header
    with any scheme word is treated as the header with "Bearer". *)
Theorem scheme_word_not_checked now w t :
  has_space w = false ->
  has_space t = false ->
  authenticateToken now (Some (w +:+ " " +:+ t)) =
    authenticateToken now (Some ("Bearer " +:+ t)).
Proof.
  intros Hw Ht. unfold authenticateToken.
  rewrite (header_token_bearer _ Ht).
  assert (header_token (Some (w +:+ " " +:+ t)) = Some t) as ->; [|done].
  unfold header_token.
  change (w +:+ " " +:+ t) with (w +:+ String " "%char t).
  rewrite (split_before_space _ _ Hw), (split_no_space _ Ht).
  by destruct w.
Qed.

End Handlers.

(** ** Invariants of the runs *)

Section Runs.
Context `{R : Runtime}.

(** The four ways in which a handler leaves the array. *)
Lemma dispatch_users now req b us :
  users_after (dispatch now req b us) = us \/
  (exists d, UserCreateSchema_parse b = Returns d /\
     users_after (dispatch now req b us) =
       us ++ [ {| User.id := num_add (Math_max (ids us)) (Int 1);
                  User.name := UserCreate.name d;
                  User.email := UserCreate.email d;
                  User.age := UserCreate.age d |} ]) \/
  (exists d (i : nat) id, UserCreateSchema_parse b = Returns d /\
     users_after (dispatch now req b us) =
       <[i := {| User.id := id; User.name := UserCreate.name d;
                 User.email := UserCreate.email d;
                 User.age := UserCreate.age d |}]> us /\
     ids (users_after (dispatch now req b us)) = ids us) \/
  (exists i : nat, users_after (dispatch now req b us) = delete i us).
Proof.
  unfold dispatch.
  destruct (route_of (method req) (path req)); try by left.
  - left. unfold post_auth_login, validation_failed. by repeat case_match.
  - left. unfold get_users_id. by case_match.
  - unfold post_users, validation_failed.
    destruct (UserCreateSchema_parse b) as [d|e]; [|by left].
    right. left. by exists d.
  - pose proof (put_users_id_ids param b us) as Hids. revert Hids.
    unfold put_users_id, validation_failed.
    destruct (UserCreateSchema_parse b) as [d|e]; [|by left].
    case_match; [by left|]. intros Hids.
    right. right. left. by eexists d, _, _.
  - unfold delete_users_id. case_match; [by left|].
    right. right. right. by eexists.
  - left. unfold get_protected. by case_match.
Qed.

Lemma handle_users now req st :
  users (state (handle now req st)) = users st \/
  exists b, body req = Some b /\
    users (state (handle now req st)) = users_after (dispatch now req b (users st)).
Proof.
  unfold handle. destruct (decide (method req = OPTIONS)); [by left|].
  destruct (body req) as [b|]; [|by left].
  destruct (consume (storage st) (ip req) now) as [[|] ?]; simpl; [|by left].
  right. by exists b.
Qed.

(** An invariant of the array that the handlers keep is kept by the runs. *)
Lemma run_invariant (P : list User -> Prop) :
  (forall now req b us, P us -> P (users_after (dispatch now req b us))) ->
  forall reqs st, P (users st) -> P (users (run reqs st).2).
Proof.
  intros Hstep. induction reqs as [|[now req] reqs IH]; intros st HP; [done|].
  destruct (run_cons now req reqs st) as [_ ->]. apply IH.
  destruct (handle_users now req st) as [->|(b & _ & ->)]; [done|].
  by apply Hstep.
Qed.

(** Every record that the handlers store has passed the schema: when the
    records of the array are within the bounds of [UserCreateSchema], they
    are so after every run of requests. *)
Theorem run_keeps_records_valid reqs st :
  Forall valid_record (users st) ->
  Forall valid_record (users (run reqs st).2).
Proof.
  apply (run_invariant (Forall valid_record)).
  intros now req b us Hus.
  destruct (dispatch_users now req b us)
    as [->|[(d & Hd & ->)|[(d & i & id & Hd & -> & _)|(i & ->)]]].
  - done.
  - apply Forall_app. split; [done|]. apply Forall_cons_2; [|apply Forall_nil_2].
    by apply UserCreateSchema_parse_valid in Hd.
  - apply Forall_insert; [done|]. by apply UserCreateSchema_parse_valid in Hd.
  - by apply Forall_delete.
Qed.

Lemma dispatch_ids now req b us :
  ids (users_after (dispatch now req b us)) = ids us \/
  ids (users_after (dispatch now req b us)) =
    ids us ++ [num_add (Math_max (ids us)) (Int 1)] \/
  exists i : nat, ids (users_after (dispatch now req b us)) = delete i (ids us).
Proof.
  destruct (dispatch_users now req b us)
    as [->|[(d & _ & ->)|[(d & i & id & _ & _ & ->)|(i & ->)]]].
  - by left.
  - right. left. unfold ids. by rewrite fmap_app.
  - by left.
  - right. right. exists i. unfold ids. by rewrite list_fmap_delete.
Qed.

Lemma Math_max_all_NegInf l :
  (forall x, x ∈ l -> x = NegInf) -> Math_max l = NegInf.
Proof.
  unfold Math_max. induction l as [|x l IH]; intros Hl; [done|]. simpl.
  rewrite (Hl x) by left. simpl. apply IH. intros y Hy. apply Hl. by right.
Qed.

Lemma fold_max2_in l : forall a,
  (forall x, x ∈ l -> exists z, x = Int z) ->
  (a = NegInf \/ exists z, a = Int z) ->
  fold_left max2 l a = a \/ fold_left max2 l a ∈ l.
Proof.
  induction l as [|x l IH]; intros a Hl Ha; simpl; [by left|].
  destruct (Hl x) as [z ->]; [left|].
  assert (Hl' : forall y, y ∈ l -> exists z, y = Int z).
  { intros y Hy. apply Hl. by right. }
  destruct Ha as [->|[za ->]]; simpl.
  - destruct (IH (Int z) Hl' (or_intror (ex_intro _ z eq_refl))) as [E|Hin].
    + right. rewrite E. left.
    + right. by right.
  - destruct (IH (Int (Z.max za z)) Hl' (or_intror (ex_intro _ _ eq_refl)))
      as [E|Hin].
    + rewrite E. destruct (Z.max_spec za z) as [[_ ->]|[_ ->]].
      * right. left.
      * by left.
    + right. by right.
Qed.

Lemma ids_ok_step n l l' :
  ((forall x, x ∈ l -> x = NegInf) \/
   (NoDup l /\ forall x, x ∈ l -> exists z, x = Int z /\ 1 <= z <= n)) ->
  n < two53 -> 0 <= n ->
  (l' = l \/ l' = l ++ [num_add (Math_max l) (Int 1)] \/
   exists i : nat, l' = delete i l) ->
  (forall x, x ∈ l' -> x = NegInf) \/
  (NoDup l' /\ forall x, x ∈ l' -> exists z, x = Int z /\ 1 <= z <= n + 1).
Proof.
  intros Hok Hn Hn0 [->|[->|[i ->]]].
  - destruct Hok as [Hinf|[Hnd Hint]]; [by left|right].
    split; [done|]. intros x Hx. destruct (Hint x Hx) as (z & -> & ?).
    exists z. split; [done|lia].
  - assert (Hinf_case : (forall x, x ∈ l -> x = NegInf) ->
              forall x, x ∈ l ++ [num_add (Math_max l) (Int 1)] -> x = NegInf).
    { intros Hinf x [Hx|Hx]%elem_of_app; [by apply Hinf|].
      rewrite (Math_max_all_NegInf _ Hinf) in Hx.
      by apply list_elem_of_singleton in Hx. }
    destruct Hok as [Hinf|[Hnd Hint]]; [left; by apply Hinf_case|].
    destruct l as [|x0 l0] eqn:El.
    { left. apply Hinf_case. by intros x Hx%elem_of_nil. }
    rewrite <- El in *. right.
    assert (Hmax : exists m, Math_max l = Int m /\ 1 <= m <= n /\
                             forall x, x ∈ l -> num_le x (Int m)).
    { destruct (fold_max2_in l NegInf) as [E|Hin].
      - intros x Hx. destruct (Hint x Hx) as (z & -> & _). by exists z.
      - by left.
      - exfalso. unfold Math_max in *.
        assert (Hx0 : x0 ∈ l) by (rewrite El; left).
        destruct (Hint x0 Hx0) as (z0 & Hz0 & _).
        assert (Hfold : fold_left max2 l0 (max2 NegInf x0) = NegInf).
        { rewrite El in E. exact E. }
        rewrite Hz0 in Hfold. simpl in Hfold.
        destruct (fold_max2_in l0 (Int z0)) as [E'|Hin'].
        + intros x Hx. destruct (Hint x) as (z & -> & _); [rewrite El; by right|].
          by exists z.
        + right. by exists z0.
        + congruence.
        + rewrite Hfold in Hin'.
          destruct (Hint NegInf) as (z & Hz & _); [rewrite El; by right|]. done.
      - fold (Math_max l) in Hin. destruct (Hint _ Hin) as (m & Hm & Hrange).
        exists m. split; [done|]. split; [done|].
        intros x Hx. by apply (Math_max_upper m l). }
    destruct Hmax as (m & Hm & Hrange & Hupper).
    rewrite Hm. simpl.
    rewrite round_double_exact by (unfold two53 in *; lia).
    split.
    + apply NoDup_app. split; [done|]. split; [|apply NoDup_singleton].
      intros x Hx Hx'%list_elem_of_singleton. subst x.
      specialize (Hupper _ Hx). simpl in Hupper. lia.
    + intros x [Hx|Hx]%elem_of_app.
      * destruct (Hint x Hx) as (z & -> & ?). exists z. split; [done|lia].
      * apply list_elem_of_singleton in Hx as ->. exists (m + 1).
        split; [done|lia].
  - destruct Hok as [Hinf|[Hnd Hint]].
    + left. intros x Hx%list_elem_of_delete_inv. by apply Hinf.
    + right. split.
      * eapply sublist_NoDup; [exact Hnd|apply sublist_delete].
      * intros x Hx%list_elem_of_delete_inv.
        destruct (Hint x Hx) as (z & -> & ?). exists z. split; [done|lia].
Qed.

(** When the ids of the array are all [-Infinity], or distinct integers from
    1 to [n], they are so after every run of requests, with the bound
    raised by the number of requests, as long as it stays within [2^53]. *)
Theorem run_keeps_ids_ok reqs : forall st n,
  ids_ok n (users st) ->
  0 <= n ->
  n + Z.of_nat (List.length reqs) <= two53 ->
  ids_ok (n + Z.of_nat (List.length reqs)) (users (run reqs st).2).
Proof.
  induction reqs as [|[now req] reqs IH]; intros st n Hok Hn0 Hn.
  - simpl. by rewrite Z.add_0_r.
  - destruct (run_cons now req reqs st) as [_ ->].
    simpl List.length in *.
    replace (n + Z.of_nat (S (List.length reqs)))
      with ((n + 1) + Z.of_nat (List.length reqs)) by lia.
    apply IH; [|lia|lia].
    destruct (handle_users now req st) as [->|(b & _ & ->)].
    + apply (ids_ok_step n (ids (users st)) (ids (users st))); [done|lia|done|].
      by left.
    + apply (ids_ok_step n (ids (users st))); [done|lia|done|].
      apply dispatch_ids.
Qed.

Lemma handle_created now req st u :
  res (handle now req st) = {| status := 201; payload := BodyUser u |} ->
  User.id u = num_add (Math_max (ids (users st))) (Int 1).
Proof.
  unfold handle, send. destruct (decide (method req = OPTIONS)); [done|].
  destruct (decide (method req = HEAD));
    [repeat case_match; simpl; intros ?; by simplify_eq|].
  destruct (body req) as [b|]; [|done].
  destruct (consume (storage st) (ip req) now) as [[|] ?]; simpl; [|done].
  unfold dispatch, post_auth_login, get_users, get_users_id, post_users,
    put_users_id, delete_users_id, get_protected, authenticateToken,
    validation_failed.
  repeat case_match; simpl; intros ?; by simplify_eq.
Qed.

(** Once every id of the array is [-Infinity], which is the case of the empty
    array, it stays so: every record that a later POST /users creates is
    answered with the id [-Infinity], and the array never holds another id. *)
Theorem minus_infinity_ids_stay reqs : forall st,
  (forall x, x ∈ ids (users st) -> x = NegInf) ->
  (forall x, x ∈ assigned_ids (run reqs st).1 -> x = NegInf) /\
  (forall x, x ∈ ids (users (run reqs st).2) -> x = NegInf).
Proof.
  induction reqs as [|[now req] reqs IH]; intros st Hinf.
  - split; [|done]. by intros x Hx%elem_of_nil.
  - destruct (run_cons now req reqs st) as [-> ->].
    assert (Hinf' : forall x, x ∈ ids (users (state (handle now req st))) ->
                              x = NegInf).
    { assert (Hshape :
        ids (users (state (handle now req st))) = ids (users st) \/
        ids (users (state (handle now req st))) =
          ids (users st) ++ [num_add (Math_max (ids (users st))) (Int 1)] \/
        exists i : nat,
          ids (users (state (handle now req st))) = delete i (ids (users st))).
      { destruct (handle_users now req st) as [->|(b & _ & ->)]; [by left|].
        apply dispatch_ids. }
      destruct Hshape as [->|[->|[i ->]]]; [done| |].
      - intros x [Hx|Hx]%elem_of_app; [by apply Hinf|].
        rewrite (Math_max_all_NegInf _ Hinf) in Hx.
        by apply list_elem_of_singleton in Hx.
      - intros x Hx%list_elem_of_delete_inv. by apply Hinf. }
    destruct (IH _ Hinf') as [Hassigned Hids]. split; [|done].
    intros x Hx. unfold assigned_ids in Hx. simpl in Hx.
    destruct (res (handle now req st)) as [st' [| | | | | |u| |]] eqn:Hres;
      simpl in Hx; try by apply Hassigned.
    destruct (Z.eqb_spec st' 201) as [->|_]; [|by apply Hassigned].
    apply elem_of_cons in Hx as [->|Hx]; [|by apply Hassigned].
    rewrite (handle_created _ _ _ _ Hres).
    by rewrite (Math_max_all_NegInf _ Hinf).
Qed.

(** In the states that fewer than [2^53 - 2] requests reach from the seed
    data, a DELETE /users/:id whose parameter parses to an integer and that
    answers 204 has removed the only record with that id: the GET of the
    same path that follows answers 404. *)
Theorem delete_then_get_integer_id reqs param z :
  2 + Z.of_nat (List.length reqs) <= two53 ->
  parseInt param = Int z ->
  let us := users (run reqs init).2 in
  status (response (delete_users_id param us)) = 204 ->
  response (get_users_id param (users_after (delete_users_id param us))) =
    {| status := 404; payload := BodyError "User not found" |}.
Proof.
  intros Hbound Hparam us Hdel.
  assert (Hok : ids_ok (2 + Z.of_nat (List.length reqs)) us).
  { apply run_keeps_ids_ok; [|lia|done]. right. split.
    - by_decide.
    - intros x Hx. vm_compute in Hx.
      apply elem_of_cons in Hx as [->|Hx]; [exists 1; split; [done|lia]|].
      apply elem_of_cons in Hx as [->|Hx]; [exists 2; split; [done|lia]|].
      by apply elem_of_nil in Hx. }
  assert (Hpresent : exists u, u ∈ us /\
                       strict_eq (User.id u) (parseInt param) = true).
  { revert Hdel. unfold delete_users_id.
    set (p := fun u => strict_eq (User.id u) (parseInt param)).
    destruct (Z.eqb_spec (findIndex p us) (-1)) as [E|E]; [done|]. intros _.
    destruct (findIndex_some p us E) as (x & Hx & Hpx & _).
    exists x. split; [|done]. apply list_elem_of_lookup. by eexists. }
  apply delete_then_get_single; [|done].
  intros i j u v Hu Hv Hpu Hpv.
  apply strict_eq_true in Hpu, Hpv.
  destruct Hok as [Hinf|[Hnd _]].
  - exfalso. assert (User.id u = NegInf); [|congruence].
    apply Hinf. unfold ids. apply list_elem_of_fmap. exists u. split; [done|].
    apply list_elem_of_lookup. by exists i.
  - apply (NoDup_lookup (ids us) i j (parseInt param) Hnd).
    + unfold ids. by rewrite list_lookup_fmap, Hu, <- Hpu.
    + unfold ids. by rewrite list_lookup_fmap, Hv, <- Hpv.
Qed.

Lemma route_of_read m p :
  m = GET \/ m = OtherMethod \/ m = HEAD \/ m = OPTIONS ->
  match route_of m p with
  | auth_login | users_post | users_put _ | users_delete _ => False
  | _ => True
  end.
Proof.
  intros [-> | [-> | [-> | ->]]]; unfold route_of; by repeat case_match.
Qed.

(** A request with the method GET, HEAD or OPTIONS, or with a method that
    no route has, never changes the array of users, whatever its path,
    headers and body. *)
Theorem read_methods_keep_users now req st :
  method req = GET \/ method req = OtherMethod \/
  method req = HEAD \/ method req = OPTIONS ->
  users (state (handle now req st)) = users st.
Proof.
  intros Hm. destruct (handle_users now req st) as [->|(b & _ & ->)]; [done|].
  pose proof (route_of_read _ (path req) Hm) as Hroute.
  unfold dispatch. destruct (route_of (method req) (path req)); try done.
  - unfold get_users_id. by case_match.
  - unfold get_protected. by case_match.
Qed.

End Runs.

(** ** [parseInt] stops at the first character that is not a digit *)

Lemma digit_value_decimal c :
  is_decimal_digit c = true ->
  digit_value 10 c = Some (Z.of_nat (nat_of_ascii c) - 48).
Proof.
  unfold is_decimal_digit, digit_value. cbv zeta. intros Hc. rewrite Hc.
  apply andb_true_iff in Hc as [H1%Z.leb_le H2%Z.leb_le].
  by destruct (Z.ltb_spec (Z.of_nat (nat_of_ascii c) - 48) 10); [|lia].
Qed.

Lemma digit_value_other c :
  is_decimal_digit c = false -> digit_value 10 c = None.
Proof.
  unfold is_decimal_digit, digit_value. cbv zeta. intros ->.
  repeat match goal with
  | |- context [?a && ?b] => destruct (a && b) eqn:?
  end; try done;
  repeat match goal with
  | H : _ && _ = true |- _ => apply andb_true_iff in H as [?%Z.leb_le ?%Z.leb_le]
  end;
  match goal with
  | |- context [?a <? 10] => by destruct (Z.ltb_spec a 10); [lia|]
  end.
Qed.

Lemma read_digits_stop acc s :
  ends_number s = true -> read_digits 10 acc s = acc.
Proof.
  destruct s as [|c s]; [done|]. simpl.
  intros [[Hc _]%andb_true_iff _]%andb_true_iff.
  apply negb_true_iff in Hc. by rewrite (digit_value_other _ Hc).
Qed.

Lemma read_digits_app d s : forall acc,
  all_digits d = true -> ends_number s = true ->
  read_digits 10 acc (d +:+ s) = read_digits 10 acc d.
Proof.
  induction d as [|c d IH]; intros acc Hd Hs.
  - change ("" +:+ s) with s. by rewrite read_digits_stop.
  - change (String c d +:+ s) with (String c (d +:+ s)).
    simpl in Hd. apply andb_true_iff in Hd as [Hc Hd].
    cbn [read_digits]. rewrite (digit_value_decimal _ Hc). by apply IH.
Qed.

Lemma parse_prefix_digit c s :
  is_decimal_digit c = true ->
  no_hex_mark s = true ->
  trim_start (String c s) = String c s /\
  strip_sign (String c s) = (1, String c s) /\
  strip_hex_prefix (String c s) = (10, String c s).
Proof.
  intros Hc Hs.
  destruct c as [[|] [|] [|] [|] [|] [|] [|] [|]]; try discriminate Hc;
    (split; [reflexivity|]; split; [reflexivity|]); try reflexivity.
  destruct s as [|c' s]; [reflexivity|].
  destruct c' as [[|] [|] [|] [|] [|] [|] [|] [|]]; try discriminate Hs;
    reflexivity.
Qed.

Lemma digits_no_hex_mark d : all_digits d = true -> no_hex_mark d = true.
Proof.
  destruct d as [|c d]; [done|]. simpl. intros [Hc _]%andb_true_iff.
  by destruct c as [[|] [|] [|] [|] [|] [|] [|] [|]]; try discriminate Hc.
Qed.

Lemma ends_number_no_hex_mark s : ends_number s = true -> no_hex_mark s = true.
Proof.
  destruct s as [|c s]; [done|]. simpl.
  intros [[_ H1]%andb_true_iff H2]%andb_true_iff. by rewrite H1, H2.
Qed.

Lemma parseInt_digits c r :
  is_decimal_digit c = true -> no_hex_mark r = true ->
  parseInt (String c r) =
    match read_digits 10 None (String c r) with
    | None => NaN
    | Some v => round_double (1 * v)
    end.
Proof.
  intros Hc Hr. unfold parseInt.
  destruct (parse_prefix_digit c r Hc Hr) as (-> & -> & ->). done.
Qed.

Lemma parseInt_digits_then_rest d s :
  d <> "" ->
  all_digits d = true ->
  ends_number s = true ->
  parseInt (d +:+ s) = parseInt d.
Proof.
  intros Hne Hd Hs. destruct d as [|c d]; [done|].
  pose proof Hd as Hcd. simpl in Hcd. apply andb_true_iff in Hcd as [Hc Hd'].
  change (String c d +:+ s) with (String c (d +:+ s)).
  rewrite !parseInt_digits; try done.
  - change (String c (d +:+ s)) with (String c d +:+ s).
    by rewrite read_digits_app.
  - by apply digits_no_hex_mark.
  - destruct d as [|c' d'].
    + change ("" +:+ s) with s. by apply ends_number_no_hex_mark.
    + change (String c' d' +:+ s) with (String c' (d' +:+ s)).
      by apply (digits_no_hex_mark (String c' d')).
Qed.

(** The handlers of /users/:id read the leading decimal digits of the path
    parameter and ignore what follows them, so a path such as /users/2abc
    addresses the id 2 for GET, PUT and DELETE. The rest must not start with
    a digit, nor with the [x] that would turn a leading 0 into a hexadecimal
    prefix. *)
Theorem path_parameter_rest_ignored `{R : Runtime} d s body us :
  d <> "" ->
  all_digits d = true ->
  ends_number s = true ->
  get_users_id (d +:+ s) us = get_users_id d us /\
  put_users_id (d +:+ s) body us = put_users_id d body us /\
  delete_users_id (d +:+ s) us = delete_users_id d us.
Proof.
  intros Hne Hd Hs.
  unfold get_users_id, put_users_id, delete_users_id.
  by rewrite (parseInt_digits_then_rest d s Hne Hd Hs).
Qed.

(** ** Instances of the further statements on the sample runtime *)

Lemma other_keys_are_dropped_witness :
  @post_users sample
     (JObject (<["id" := JNumber 7%Q]>
                 (list_to_map [("name", JString "Carol");
                               ("email", JString "carol@example.com")])))
     users0 =
  @post_users sample carol users0.
Proof.
  destruct (@other_keys_are_dropped sample "id" (JNumber 7%Q)
              (list_to_map [("name", JString "Carol");
                            ("email", JString "carol@example.com")])
              "1" users0) as [Hpost _]; [discriminate..|].
  exact Hpost.
Defined.

Lemma post_users_rejects_witness :
  @post_users sample (object [("name", JString "")]) users0 =
    respond 400
      (BodyValidation [issue too_small ["name"]; issue invalid_type ["email"]])
      users0 [].
Proof.
  destruct (@post_users_rejects_with_issues sample
              (object [("name", JString "")]) users0
              {| errors := [issue too_small ["name"];
                            issue invalid_type ["email"]] |})
    as [Hpost _]; [reflexivity|].
  exact Hpost.
Defined.

Lemma delete_users_id_removes_witness :
  exists (i : nat) (u : User),
    users0 !! i = Some u /\ User.id u = parseInt "2" /\
    users_after (delete_users_id "2" users0) = take i users0 ++ drop (S i) users0.
Proof.
  destruct (delete_users_id_removes_first "2" users0)
    as (i & u & Hu & Hid & _ & Hus & _); [reflexivity|].
  by exists i, u.
Defined.

Lemma put_then_get_witness :
  response (get_users_id "2"
              (users_after (@put_users_id sample "2" carol users0))) =
    response (@put_users_id sample "2" carol users0).
Proof. apply (@put_then_get sample). reflexivity. Defined.

Lemma post_then_get_witness :
  exists newUser,
    response (@post_users sample carol users0) =
      {| status := 201; payload := BodyUser newUser |} /\
    response (get_users_id "3" (users_after (@post_users sample carol users0))) =
      {| status := 200; payload := BodyUser newUser |}.
Proof.
  apply (@post_then_get sample carol
           {| UserCreate.name := "Carol"; UserCreate.email := "carol@example.com";
              UserCreate.age := None |} users0 2 "3").
  - reflexivity.
  - split; [apply list_elem_of_lookup; by exists 1%nat|].
    intros y Hy. vm_compute in Hy.
    apply elem_of_cons in Hy as [->|Hy]; [simpl; lia|].
    apply elem_of_cons in Hy as [->|Hy]; [simpl; lia|].
    by apply elem_of_nil in Hy.
  - unfold two53. lia.
  - reflexivity.
Defined.

Lemma scheme_word_not_checked_witness :
  @authenticateToken sample 1700000900000
     (Some ("Basic" +:+ " " +:+ sample_token)) =
  @authenticateToken sample 1700000900000
     (Some ("Bearer " +:+ sample_token)).
Proof. apply (@scheme_word_not_checked sample); reflexivity. Defined.

Lemma sample_seed_valid : Forall (@valid_record sample) users0.
Proof.
  apply Forall_cons_2; [|apply Forall_cons_2; [|apply Forall_nil_2]];
    unfold valid_record, valid_fields; simpl; repeat split; lia.
Qed.

Lemma run_keeps_records_valid_witness :
  Forall (@valid_record sample)
    (users (@run sample [ (0, request POST ["users"] carol);
                          (1, request PUT ["users"; "1"] alice_again) ] init).2).
Proof. apply (@run_keeps_records_valid sample). exact sample_seed_valid. Defined.

Lemma seed_ids_ok : ids_ok 2 users0.
Proof.
  right. split; [by_decide|].
  intros x Hx. vm_compute in Hx.
  apply elem_of_cons in Hx as [->|Hx]; [exists 1; split; [done|lia]|].
  apply elem_of_cons in Hx as [->|Hx]; [exists 2; split; [done|lia]|].
  by apply elem_of_nil in Hx.
Qed.

Lemma run_keeps_ids_ok_witness :
  ids_ok 4
    (users (@run sample [ (0, request POST ["users"] carol);
                          (1, request DELETE ["users"; "1"] (object [])) ]
                 init).2).
Proof.
  apply (@run_keeps_ids_ok sample
           [ (0, request POST ["users"] carol);
             (1, request DELETE ["users"; "1"] (object [])) ] init 2).
  - exact seed_ids_ok.
  - lia.
  - unfold two53. simpl. lia.
Defined.

Lemma minus_infinity_ids_stay_witness :
  Forall (eq NegInf)
    (assigned_ids
       (@run sample [ (0, request POST ["users"] carol);
                      (1, request POST ["users"] carol) ]
             {| users := []; storage := ∅ |}).1).
Proof.
  apply Forall_forall. intros x Hx. symmetry. revert x Hx.
  apply (@minus_infinity_ids_stay sample).
  intros x Hx. by apply elem_of_nil in Hx.
Defined.

Lemma delete_then_get_integer_id_witness :
  response
    (get_users_id "2"
       (users_after
          (delete_users_id "2"
             (users (@run sample [ (0, request POST ["users"] carol) ] init).2)))) =
    {| status := 404; payload := BodyError "User not found" |}.
Proof.
  apply (@delete_then_get_integer_id sample
           [ (0, request POST ["users"] carol) ] "2" 2).
  - unfold two53. simpl. lia.
  - reflexivity.
  - reflexivity.
Defined.

Lemma read_methods_keep_users_witness :
  users (state (@handle sample 0 (request GET ["users"; "1"] carol) init)) =
    users init.
Proof. apply (@read_methods_keep_users sample). by left. Defined.

Lemma path_parameter_rest_ignored_witness :
  get_users_id "2abc" users0 = get_users_id "2" users0.
Proof.
  destruct (@path_parameter_rest_ignored sample "2" "abc" carol users0)
    as [Hget _]; [discriminate|reflexivity..|].
  exact Hget.
Defined.
